(** * nxtp: transfer cache (TypeScript) and root-aggregation hub (Solidity)

    A shallow embedding of
    - [packages/adapters/cache/src/lib/caches/transfers.ts] (class [TransfersCache]),
    - [contracts/core/messaging/RootManager.sol],
    - [contracts/core/messaging/connectors/GnosisConnector.sol],
    followed by the properties of the specification that concern them.

    Part I holds the definitions, one module per source unit; Part II
    holds the lemmas and theorems. *)

From Stdlib Require Import ZArith NArith String Ascii List Bool Lia.
From Stdlib Require Import DecimalString.
From Stdlib Require Import Strings.Byte.
From stdpp Require Import gmap strings list fin_maps.

Import ListNotations.
Local Open Scope string_scope.
Local Open Scope list_scope.
Set Warnings "-register-all".

(* ====================================================================== *)
(** * Part I. Definitions                                                  *)
(* ====================================================================== *)

(** ** JavaScript values, object spread and JSON *)

Module Js.

(** The values an [XTransfer] is made of: scalars and (nested) plain
    objects.  An object is the ordered list of its own properties: the
    order is the one [JSON.stringify] and the spread operator follow
    (property names are identifiers, none is an array index, so this is
    the order of creation).  Numbers are the integers (nonces,
    timestamps, block numbers), strings are byte strings. *)
Inductive JsVal : Type :=
| JUndefined
| JNull
| JBool (b : bool)
| JNum (n : Z)
| JStr (s : string)
| JObj (props : list (string * JsVal)).

Definition JsObject : Type := list (string * JsVal).

(** [o.k]: the value of property [k], [undefined] when [o] has none. *)
Fixpoint get_prop (k : string) (o : JsObject) : JsVal :=
  match o with
  | [] => JUndefined
  | (k', v) :: o' => if String.eqb k' k then v else get_prop k o'
  end.

(** [o[k] = v]: an existing property keeps its place, a new one goes last. *)
Fixpoint set_prop (k : string) (v : JsVal) (o : JsObject) : JsObject :=
  match o with
  | [] => [(k, v)]
  | (k', v') :: o' =>
      if String.eqb k' k then (k', v) :: o' else (k', v') :: set_prop k v o'
  end.

Definition assign (acc : JsObject) (kv : string * JsVal) : JsObject :=
  set_prop (fst kv) (snd kv) acc.

(** [{ ...a, ...b }]: the properties of [a], then those of [b], copied
    one by one into a fresh object. *)
Definition spread (a b : JsObject) : JsObject :=
  fold_left assign (a ++ b) [].

(** [v == null]. *)
Definition is_nullish (v : JsVal) : bool :=
  match v with
  | JUndefined | JNull => true
  | _ => false
  end.

(** [v?.k]: optional chaining; scalars have no such property. *)
Definition opt_chain (v : JsVal) (k : string) : JsVal :=
  match v with
  | JObj props => get_prop k props
  | _ => JUndefined
  end.

(** Truthiness, as [if (v)], [!v], [&&] and [||] test it. *)
Definition truthy (v : JsVal) : bool :=
  match v with
  | JUndefined | JNull => false
  | JBool b => b
  | JNum n => negb (n =? 0)%Z
  | JStr s => negb (String.eqb s EmptyString)
  | JObj _ => true
  end.

(** [Number(v)]; [None] is [NaN].  A string is outside the type of
    [XTransfer.nonce] and is not parsed here. *)
Definition Number (v : JsVal) : option Z :=
  match v with
  | JNum n => Some n
  | JNull => Some 0%Z
  | JBool b => Some (if b then 1%Z else 0%Z)
  | _ => None
  end.

(** *** JSON.stringify *)

Definition dquote : ascii := "034"%char.
Definition backslash : ascii := "092"%char.

Definition hex_digit (n : N) : ascii :=
  ascii_of_N (if (n <? 10)%N then 48 + n else 87 + n).

(** One character inside a JSON string literal. *)
Definition escape_char (c : ascii) : string :=
  let n := N_of_ascii c in
  if Ascii.eqb c dquote then String backslash (String dquote EmptyString)
  else if Ascii.eqb c backslash then String backslash (String backslash EmptyString)
  else if (n =? 8)%N then String backslash "b"
  else if (n =? 9)%N then String backslash "t"
  else if (n =? 10)%N then String backslash "n"
  else if (n =? 12)%N then String backslash "f"
  else if (n =? 13)%N then String backslash "r"
  else if (n <? 32)%N then
    String backslash
      ("u00" +:+ String (hex_digit (n / 16)) (String (hex_digit (n mod 16)) EmptyString))
  else String c EmptyString.

Fixpoint escape (s : string) : string :=
  match s with
  | EmptyString => EmptyString
  | String c s' => escape_char c +:+ escape s'
  end.

(** [JSON.stringify(s)] for a string [s]: the quoted, escaped literal. *)
Definition quote (s : string) : string :=
  String dquote (escape s +:+ String dquote EmptyString).

Definition decimal (n : Z) : string := NilZero.string_of_int (Z.to_int n).

(** [JSON.stringify(v)]; [None] is the [undefined] it returns for
    [undefined].  A property whose value is [undefined] is left out. *)
Fixpoint JSON_stringify (v : JsVal) : option string :=
  match v with
  | JUndefined => None
  | JNull => Some "null"
  | JBool b => Some (if b then "true" else "false")
  | JNum n => Some (decimal n)
  | JStr s => Some (quote s)
  | JObj props =>
      Some ("{" +:+
            String.concat ","
              (flat_map (fun kv : string * JsVal =>
                           let (k, x) := kv in
                           match JSON_stringify x with
                           | None => []
                           | Some sx => [quote k +:+ ":" +:+ sx]
                           end) props)
            +:+ "}")
  end.

(** [JSON.parse(JSON.stringify(v))]: the value read back from the text
    written for [v]: [v] without its [undefined] properties. *)
Fixpoint JSON_roundtrip (v : JsVal) : JsVal :=
  match v with
  | JObj props =>
      JObj (flat_map (fun kv : string * JsVal =>
                        let (k, x) := kv in
                        match x with
                        | JUndefined => []
                        | _ => [(k, JSON_roundtrip x)]
                        end) props)
  | _ => v
  end.

Definition roundtrip_object (o : JsObject) : JsObject :=
  flat_map (fun kv : string * JsVal =>
              let (k, x) := kv in
              match x with
              | JUndefined => []
              | _ => [(k, JSON_roundtrip x)]
              end) o.

(** A value [JSON.parse] can return: no [undefined] anywhere. *)
Fixpoint is_json (v : JsVal) : bool :=
  match v with
  | JUndefined => false
  | JObj props => forallb (fun kv : string * JsVal => let (_, x) := kv in is_json x) props
  | _ => true
  end.

Definition is_json_object (o : JsObject) : bool :=
  forallb (fun kv : string * JsVal => let (_, x) := kv in is_json x) o.

End Js.

(** ** transfers.ts: class TransfersCache *)

Module TransfersCache.
Import Js.

(** An [XTransfer] is a plain object.  Its type gives it a string
    [transferId], a string [originDomain], a numeric [nonce] and the
    optional sub-records [xcall], [execute] and [reconcile]. *)
Definition XTransfer : Type := JsObject.

Definition is_string (v : JsVal) : bool :=
  match v with JStr _ => true | _ => false end.

Definition is_number (v : JsVal) : bool :=
  match v with JNum _ => true | _ => false end.

(** What the TypeScript type guarantees of a value handed to the cache. *)
Definition XTransfer_typed (t : XTransfer) : bool :=
  bool_decide (NoDup (map fst t))
  && is_string (get_prop "transferId" t)
  && is_string (get_prop "originDomain" t)
  && is_number (get_prop "nonce" t).

(** A property the type declares as a string, read as such. *)
Definition string_prop (k : string) (t : XTransfer) : string :=
  match get_prop k t with
  | JStr s => s
  | _ => EmptyString
  end.

Definition transferId (t : XTransfer) : string := string_prop "transferId" t.
Definition originDomain (t : XTransfer) : string := string_prop "originDomain" t.

(** [t.xcall?.transactionHash] and its siblings, as the conditions read them. *)
Definition has_tx (sub : string) (t : XTransfer) : bool :=
  truthy (opt_chain (get_prop sub t) "transactionHash").

(** Modelled from the spec: [sanitizeNull] of [../helpers], which is not
    among the sources.  The merge is the "object spread of sanitized-null
    fields" in which "a null/absent value in an incoming update must never
    overwrite a previously known value": the helper drops the properties
    whose value is [null] or [undefined]. *)
Definition sanitizeNull (o : JsObject) : JsObject :=
  List.filter (fun kv => negb (is_nullish (snd kv))) o.

(** The Redis hashes behind [this.data], by the value [JSON.parse] (or
    [parseInt]) reads back from each field:
    - [transfers:transfers], transfer id to record;
    - [transfers:pending], domain to list of transfer ids;
    - [transfers:nonce], domain to latest nonce;
    - [transfers:errors], transfer id to list of error strings. *)
Record Cache : Type := mkCache {
  transfers : gmap string JsObject;
  pending : gmap string (list string);
  nonces : gmap string Z;
  errors : gmap string (list string)
}.

(** The message published on [StoreChannel.NewHighestNonce]. *)
Record NewHighestNonce : Type := mkNewHighestNonce {
  domain : string;
  nonce : Z
}.

Definition empty_cache : Cache := mkCache ∅ ∅ ∅ ∅.

(** [hset] answers the number of fields it added: 1 for a new field,
    0 for an update. *)
Definition hset_added {V : Type} (m : gmap string V) (field : string) : Z :=
  match m !! field with
  | None => 1
  | Some _ => 0
  end.

(** *** Latest nonce *)

(** [getLatestNonce]: what [parseInt] reads of the field, 0 when there
    is none.  The store keeps the number itself (see the safe integers
    below). *)
Definition getLatestNonce (c : Cache) (domain : string) : Z :=
  match nonces c !! domain with
  | Some res => res
  | None => 0
  end.

(** *** Transfer data *)

Definition getTransfer (c : Cache) (transferId : string) : option XTransfer :=
  transfers c !! transferId.

(** *** Pending transfers *)

Definition getPending (c : Cache) (domain : string) : list string :=
  default [] (pending c !! domain).

Definition includes (l : list string) (x : string) : bool :=
  existsb (String.eqb x) l.

Definition addPending (c : Cache) (domain transferId : string) : Cache :=
  let currentPending := getPending c domain in
  if negb (includes currentPending transferId) then
    mkCache (transfers c) (<[domain := currentPending ++ [transferId]]> (pending c))
            (nonces c) (errors c)
  else c.

(** [findIndex((id) => id === transferId)]: [None] is the -1 answer. *)
Fixpoint findIndex (l : list string) (transferId : string) : option nat :=
  match l with
  | [] => None
  | id :: l' =>
      if String.eqb id transferId then Some 0%nat
      else option_map S (findIndex l' transferId)
  end.

Definition removePending (c : Cache) (domain transferId : string) : bool * Cache :=
  let currentPending := getPending c domain in
  match findIndex currentPending transferId with
  | Some index =>
      (true,
       mkCache (transfers c) (<[domain := delete index currentPending]> (pending c))
               (nonces c) (errors c))
  | None => (false, c)
  end.

(** *** storeTransfers *)

(** The variables of the loop: the store and the two tables of the call. *)
Record Batch : Type := mkBatch {
  data : Cache;
  highestNonceByDomain : gmap string Z;
  nonceDidIncreaseForDomain : gmap string bool
}.

Definition as_value (existing : option XTransfer) : JsVal :=
  match existing with
  | Some e => JObj e
  | None => JUndefined
  end.

(** [JSON.stringify(transfer) === JSON.stringify(existing)]. *)
Definition same_stringified (transfer : XTransfer) (existing : option XTransfer) : bool :=
  match JSON_stringify (JObj transfer), JSON_stringify (as_value existing) with
  | Some a, Some b => String.eqb a b
  | _, _ => false
  end.

(** The record that is written: the collation with the stored one. *)
Definition collate (existing : option XTransfer) (transfer : XTransfer) : XTransfer :=
  match existing with
  | Some e => spread (sanitizeNull e) (sanitizeNull transfer)
  | None => transfer
  end.

(** [xcall?.transactionHash && !execute?.transactionHash && !reconcile?.transactionHash] *)
Definition is_pending (t : XTransfer) : bool :=
  has_tx "xcall" t && negb (has_tx "execute" t) && negb (has_tx "reconcile" t).

(** [execute?.transactionHash || reconcile?.transactionHash] *)
Definition is_complete (t : XTransfer) : bool :=
  has_tx "execute" t || has_tx "reconcile" t.

(** Lines 73-90 of the loop body: the collated record is written under
    its id, then the pending index of its origin domain is brought up
    to date. *)
Definition write_transfer (c : Cache) (transfer : XTransfer) : Cache :=
  let transferId := transferId transfer in
  let originDomain := originDomain transfer in
  let stringified := roundtrip_object transfer in
  let added := (1 <=? hset_added (transfers c) transferId)%Z in
  let c := mkCache (<[transferId := stringified]> (transfers c))
                   (pending c) (nonces c) (errors c) in
  if added && is_pending transfer then addPending c originDomain transferId
  else if is_complete transfer then snd (removePending c originDomain transferId)
  else c.

(** Lines 92-104 of the loop body: the two tables of the call after the
    nonce of the collated record has been looked at.  [!currentNonce]
    holds of [undefined] and of 0; a [NaN] nonce is greater than nothing. *)
Definition track_nonce (c : Cache)
    (highest : gmap string Z) (didIncrease : gmap string bool)
    (transfer : XTransfer) : gmap string Z * gmap string bool :=
  let originDomain := originDomain transfer in
  let nonce := Number (get_prop "nonce" transfer) in
  let '(currentNonce, highest, didIncrease) :=
    match highest !! originDomain with
    | Some n =>
        if (n =? 0)%Z then
          let n0 := getLatestNonce c originDomain in
          (n0, <[originDomain := n0]> highest, <[originDomain := true]> didIncrease)
        else (n, highest, didIncrease)
    | None =>
        let n0 := getLatestNonce c originDomain in
        (n0, <[originDomain := n0]> highest, <[originDomain := true]> didIncrease)
    end in
  match nonce with
  | Some n =>
      if (n >? currentNonce)%Z then
        (<[originDomain := n]> highest, <[originDomain := true]> didIncrease)
      else (highest, didIncrease)
  | None => (highest, didIncrease)
  end.

(** One turn of the [for (let transfer of transfers)] loop. *)
Definition store_transfer (st : Batch) (transfer : XTransfer) : Batch :=
  let existing := getTransfer (data st) (transferId transfer) in
  if same_stringified transfer existing then st
  else
    let transfer := collate existing transfer in
    let c := write_transfer (data st) transfer in
    let (highest, didIncrease) :=
      track_nonce c (highestNonceByDomain st) (nonceDidIncreaseForDomain st) transfer in
    mkBatch c highest didIncrease.

(** One turn of the closing loop over [Object.entries(highestNonceByDomain)]. *)
Definition publish_nonce (didIncrease : gmap string bool)
    (acc : Cache * list NewHighestNonce) (entry : string * Z)
    : Cache * list NewHighestNonce :=
  let (c, published) := acc in
  let (domain, nonce) := entry in
  match didIncrease !! domain with
  | Some true =>
      (mkCache (transfers c) (pending c) (<[domain := nonce]> (nonces c)) (errors c),
       published ++ [mkNewHighestNonce domain nonce])
  | _ => acc
  end.

(** [storeTransfers(transfers)]: the store afterwards and the events
    published by the call.  The entries of the table are visited in
    the order of [map_to_list]; the order in which JavaScript enumerates
    them is not modelled, and no statement below depends on it. *)
Definition storeTransfers (c : Cache) (transfers : list XTransfer)
    : Cache * list NewHighestNonce :=
  let st := fold_left store_transfer transfers (mkBatch c ∅ ∅) in
  fold_left (publish_nonce (nonceDidIncreaseForDomain st))
    (map_to_list (highestNonceByDomain st)) (data st, []).

(** *** Errors *)

Definition getErrors (c : Cache) (transferId : string) : list string :=
  default [] (errors c !! transferId).

Definition saveError (c : Cache) (transferId error : string) : bool * Cache :=
  let stringified := quote error in
  let currentErrors := getErrors c transferId in
  let isNewError := negb (includes currentErrors stringified) in
  (isNewError,
   if isNewError then
     mkCache (transfers c) (pending c) (nonces c)
             (<[transferId := currentErrors ++ [error]]> (errors c))
   else c).

(** [clear()]: [flushall]. *)
Definition clear (c : Cache) : Cache := empty_cache.

(** The stores that calls of the public methods lead to, from the empty one. *)
Inductive reachable : Cache -> Prop :=
| reachable_empty : reachable empty_cache
| reachable_store c ts :
    reachable c ->
    Forall (fun t => XTransfer_typed t = true) ts ->
    reachable (fst (storeTransfers c ts))
| reachable_error c id e :
    reachable c -> reachable (snd (saveError c id e)).

(** *** Sample records *)

Definition T_no_xcall : XTransfer :=
  [("transferId", JStr "0xt1"); ("originDomain", JStr "1337"); ("nonce", JNum 1)].

Definition T_xcall : XTransfer :=
  [("transferId", JStr "0xt1"); ("originDomain", JStr "1337"); ("nonce", JNum 1);
   ("xcall", JObj [("transactionHash", JStr "0xa")])].

Definition T_execute : XTransfer :=
  [("transferId", JStr "0xt1"); ("originDomain", JStr "1337"); ("nonce", JNum 1);
   ("xcall", JNull);
   ("execute", JObj [("transactionHash", JStr "0xb")])].

Definition T_execute_only : XTransfer :=
  [("transferId", JStr "0xt1"); ("originDomain", JStr "1337"); ("nonce", JNum 1);
   ("execute", JObj [("transactionHash", JStr "0xb")])].

Definition T_nonce5 : XTransfer :=
  [("transferId", JStr "0xt5"); ("originDomain", JStr "1337"); ("nonce", JNum 5);
   ("xcall", JObj [("transactionHash", JStr "0xa")])].

Definition T_nonce3 : XTransfer :=
  [("transferId", JStr "0xt3"); ("originDomain", JStr "1337"); ("nonce", JNum 3);
   ("xcall", JObj [("transactionHash", JStr "0xc")])].

(** What every reachable store satisfies: an id occurs once in a
    pending list, and a stored record is a JSON object. *)
Definition cache_ok (c : Cache) : Prop :=
  (forall d, NoDup (getPending c d))
  /\ (forall id r, transfers c !! id = Some r ->
                  NoDup (map fst r) /\ is_json_object r = true).

(** *** Where numbers and tables are what the model takes them for

    [hset] writes a nonce as text and [getLatestNonce] reads it with
    [parseInt]; [highestNonceByDomain] and [nonceDidIncreaseForDomain]
    are plain objects, read with a domain as property name.  The store
    keeps the number and the tables are finite maps: this is what the
    code does for nonces that are safe integers (their text is their
    decimal writing, which [parseInt] reads back) and for domains that
    do not name a property every object inherits. *)

Definition MAX_SAFE_INTEGER : Z := 9007199254740991.

Definition safe_integer (n : Z) : Prop :=
  (- MAX_SAFE_INTEGER <= n <= MAX_SAFE_INTEGER)%Z.

(** The properties of [Object.prototype]. *)
Definition inherited_property (k : string) : bool :=
  existsb (String.eqb k)
    ["constructor"; "__defineGetter__"; "__defineSetter__"; "hasOwnProperty";
     "__lookupGetter__"; "__lookupSetter__"; "isPrototypeOf";
     "propertyIsEnumerable"; "toString"; "valueOf"; "__proto__"; "toLocaleString"].

Definition nonces_safe (c : Cache) : Prop :=
  forall d n, nonces c !! d = Some n -> safe_integer n.

(** A record as the cache is given them, whose origin domain names no
    inherited property and whose nonce is a safe integer. *)
Definition safe_record (t : XTransfer) : Prop :=
  XTransfer_typed t = true
  /\ inherited_property (originDomain t) = false
  /\ exists n, get_prop "nonce" t = JNum n /\ safe_integer n.

(** What every reachable store satisfies besides: a record is stored
    under its own [transferId], and an id of the pending index has a
    stored record. *)
Definition cache_linked (c : Cache) : Prop :=
  (forall id r, transfers c !! id = Some r -> transferId r = id)
  /\ (forall d id, id ∈ getPending c d -> is_Some (transfers c !! id)).

End TransfersCache.

(** ** Solidity: calls that may revert *)

Module Solidity.

Definition uint32 : Type := N.
Definition uint256 : Type := N.
Definition address : Type := N.
Definition bytes32 : Type := N.
Definition bytes : Type := list byte.

(** Why a call reverted: a failed [require] with its message, a [Panic]
    of the compiler's checks (0x11 arithmetic overflow or underflow, 0x32
    index out of bounds, 0x31 [pop] of an empty array), a rejection
    whose message the sources do not show, or an external call that did
    not return (the callee reverted, or no contract lives at the
    address): the caller reverts with it. *)
Inductive Failure : Type :=
| RequireFailed (message : string)
| Panic (code : N)
| Rejected
| CallReverted.

(** How a call ends.  [Reverted] keeps the storage as it stood at the
    failing statement, before the revert discards it: a call that
    "reverts without mutation" is one whose storage, at that point, is
    still the one it started from. *)
Inductive Outcome (S A : Type) : Type :=
| Success (a : A) (s : S)
| Reverted (f : Failure) (s : S).
Arguments Success {S A} a s.
Arguments Reverted {S A} f s.

Definition M (S A : Type) : Type := S -> Outcome S A.

Definition ret {S A} (a : A) : M S A := fun s => Success a s.

Definition bind {S A B} (m : M S A) (k : A -> M S B) : M S B :=
  fun s =>
    match m s with
    | Success a s' => k a s'
    | Reverted f s' => Reverted f s'
    end.

Definition get {S} : M S S := fun s => Success s s.
Definition modify {S} (f : S -> S) : M S unit := fun s => Success tt (f s).
Definition revert {S A} (f : Failure) : M S A := fun s => Reverted f s.

Definition require {S} (cond : bool) (message : string) : M S unit :=
  if cond then ret tt else revert (RequireFailed message).

(** The storage a transaction leaves behind: a revert restores the one
    it started from. *)
Definition transact {S A} (m : M S A) (s : S) : S :=
  match m s with
  | Success _ s' => s'
  | Reverted _ _ => s
  end.

Declare Scope sol_scope.
Delimit Scope sol_scope with sol.
Notation "x <- m ;; k" := (bind m (fun x => k))
  (at level 100, m at next level, right associativity) : sol_scope.
Notation "m ;; k" := (bind m (fun _ => k))
  (at level 100, right associativity) : sol_scope.

(** [abi.encodePacked(r)] for a [bytes32]: its 32 bytes, high byte first. *)
Definition byte_of_N (n : N) : byte :=
  match Byte.of_N (n mod 256) with
  | Some b => b
  | None => x00
  end.

Definition abi_encodePacked_bytes32 (r : bytes32) : bytes :=
  map (fun i : nat => byte_of_N (N.shiftr r (8 * (31 - N.of_nat i)))) (seq 0 32).

(** [bytes32(data)] for [bytes memory data]: the first 32 bytes, padded
    with zero bytes on the right when there are fewer. *)
Definition bytes32_of_bytes (data : bytes) : bytes32 :=
  fold_left (fun acc b => (acc * 256 + Byte.to_N b)%N)
    (firstn 32 (data ++ repeat x00 32)) 0%N.

(** The [k] low bytes of [r], high byte first. *)
Definition big_endian (k : nat) (r : N) : bytes :=
  map (fun i : nat => byte_of_N (N.shiftr r (8 * N.of_nat (k - 1 - i)))) (seq 0 k).

(** Whether a call runs to its end. *)
Definition succeeds {S A} (m : M S A) (s : S) : bool :=
  match m s with
  | Success _ _ => true
  | Reverted _ _ => false
  end.

End Solidity.

(** ** RootManager.sol *)

Module RootManager.
Import Solidity.
Local Open Scope sol_scope.
Local Open Scope N_scope.

Inductive Event : Type :=
| OutboundRootUpdated (domain : uint32) (outboundRoot : bytes32)
| ConnectorAdded (domain : uint32) (connector : address)
| ConnectorRemoved (domain : uint32) (connector : address)
| WatcherAdded (watcher : address)
| WatcherRemoved (watcher : address).

(** [IConnector(connector).propagateRoot(aggregate)], as sent. *)
Record PropagateRoot : Type := mkPropagateRoot {
  target : address;
  aggregate : bytes
}.

(** The storage of the contract, the owner kept by [ProposedOwnable],
    the log of emitted events and the calls made to connectors.  A
    mapping reads zero ([false]) where nothing was written. *)
Record State : Type := mkState {
  owner : address;
  connectors : gmap N address;
  outboundRoots : gmap N bytes32;
  domains : list uint32;
  watchers : gmap N bool;
  events : list Event;
  calls : list PropagateRoot
}.

Definition connector_of (s : State) (d : uint32) : address :=
  default 0 (connectors s !! d).
Definition outboundRoot_of (s : State) (d : uint32) : bytes32 :=
  default 0 (outboundRoots s !! d).
Definition is_watcher (s : State) (a : address) : bool :=
  default false (watchers s !! a).

Definition set_connectors (f : gmap N address -> gmap N address) (s : State) : State :=
  mkState (owner s) (f (connectors s)) (outboundRoots s) (domains s) (watchers s)
          (events s) (calls s).
Definition set_outboundRoots (f : gmap N bytes32 -> gmap N bytes32) (s : State) : State :=
  mkState (owner s) (connectors s) (f (outboundRoots s)) (domains s) (watchers s)
          (events s) (calls s).
Definition set_domains (f : list uint32 -> list uint32) (s : State) : State :=
  mkState (owner s) (connectors s) (outboundRoots s) (f (domains s)) (watchers s)
          (events s) (calls s).
Definition set_watchers (f : gmap N bool -> gmap N bool) (s : State) : State :=
  mkState (owner s) (connectors s) (outboundRoots s) (domains s) (f (watchers s))
          (events s) (calls s).
Definition emit (e : Event) : M State unit :=
  modify (fun s => mkState (owner s) (connectors s) (outboundRoots s) (domains s)
                           (watchers s) (events s ++ [e]) (calls s)).
(** [IConnector(connector).propagateRoot(data)], an external call.  What
    the callee does is not the root manager's to decide:
    [returns connector data] tells whether the call returns.  When it
    does, the call is recorded; when it does not (the callee reverts, or
    no contract lives at the address), the caller reverts with it.  A
    callee that calls back into the root manager is outside the model. *)
Definition call_propagateRoot (returns : address -> bytes -> bool)
    (connector : address) (data : bytes) : M State unit :=
  if returns connector data then
    modify (fun s => mkState (owner s) (connectors s) (outboundRoots s) (domains s)
                             (watchers s) (events s)
                             (calls s ++ [mkPropagateRoot connector data]))
  else revert CallReverted.

(** [constructor() ProposedOwnable() { _setOwner(msg.sender); }] *)
Definition constructor (msg_sender : address) : State :=
  mkState msg_sender ∅ ∅ [] ∅ [] [].

(** *** Modifiers *)

Definition onlyWatcher (msg_sender : address) : M State unit :=
  s <- get ;; require (is_watcher s msg_sender) "!watcher".

Definition onlyConnector (msg_sender : address) (_domain : uint32) : M State unit :=
  s <- get ;; require (connector_of s _domain =? msg_sender) "!connector".

(** Modelled from the spec: [onlyOwner] of [ProposedOwnable.sol], which is
    not among the sources.  The administrative operations are
    "owner-only" and a non-owner call is rejected; the message of the
    rejection is not given. *)
Definition onlyOwner (msg_sender : address) : M State unit :=
  s <- get ;; if owner s =? msg_sender then ret tt else revert Rejected.

(** *** propagate *)

(** The loop [for (uint8 i; i < domains.length; i++)], at index [i] with
    [rest] the entries [domains[i]], [domains[i+1]], ...: the test
    [i < domains.length] holds while [rest] has an entry, and [i++] on
    a [uint8] that holds 255 is a Panic(0x11). *)
Fixpoint propagate_loop (returns : address -> bytes -> bool)
    (aggregate : bytes) (i : N) (rest : list uint32) : M State unit :=
  match rest with
  | [] => ret tt
  | d :: rest' =>
      s <- get ;;
      let connector := connector_of s d in
      (if negb (connector =? 0) then call_propagateRoot returns connector aggregate
       else ret tt) ;;
      if i =? 255 then revert (Panic 17)
      else propagate_loop returns aggregate (i + 1) rest'
  end.

Definition propagate (returns : address -> bytes -> bool) : M State unit :=
  s <- get ;;
  match domains s with
  | [] => revert (Panic 50)
  | d0 :: _ =>
      let aggregate := abi_encodePacked_bytes32 (outboundRoot_of s d0) in
      propagate_loop returns aggregate 0 (domains s)
  end.

(** *** setOutboundRoot *)

Definition setOutboundRoot (msg_sender : address) (_domain : uint32)
    (_outbound : bytes32) : M State unit :=
  onlyConnector msg_sender _domain ;;
  modify (set_outboundRoots (insert _domain _outbound)) ;;
  emit (OutboundRootUpdated _domain _outbound).

(** *** Admin functions *)

Definition addConnector (msg_sender : address) (_domain : uint32)
    (_connector : address) : M State unit :=
  onlyOwner msg_sender ;;
  modify (set_connectors (insert _domain _connector)) ;;
  modify (set_domains (fun ds => ds ++ [_domain])) ;;
  emit (ConnectorAdded _domain _connector).

Definition addWatcher (msg_sender : address) (_watcher : address) : M State unit :=
  onlyOwner msg_sender ;;
  modify (set_watchers (insert _watcher true)) ;;
  emit (WatcherAdded _watcher).

Definition removeWatcher (msg_sender : address) (_watcher : address) : M State unit :=
  onlyOwner msg_sender ;;
  modify (set_watchers (insert _watcher false)) ;;
  emit (WatcherRemoved _watcher).

(** The loop of [removeConnector], read as [propagate_loop] is: a match
    writes [last] at index [i] and leaves the loop. *)
Fixpoint removeConnector_loop (_domain last : uint32) (i : N) (rest : list uint32)
    : M State unit :=
  match rest with
  | [] => ret tt
  | d :: rest' =>
      if d =? _domain then
        modify (set_domains (fun ds => <[N.to_nat i := last]> ds))
      else if i =? 255 then revert (Panic 17)
      else removeConnector_loop _domain last (i + 1) rest'
  end.

(** [domains.pop()]. *)
Definition pop_domain : M State unit :=
  s <- get ;;
  match domains s with
  | [] => revert (Panic 49)
  | _ => modify (set_domains (fun ds => removelast ds))
  end.

Definition removeConnector (msg_sender : address) (_domain : uint32) : M State unit :=
  onlyWatcher msg_sender ;;
  s <- get ;;
  let connector := connector_of s _domain in
  modify (set_connectors (delete _domain)) ;;
  s <- get ;;
  let length := N.of_nat (length (domains s)) in
  if length =? 0 then revert (Panic 17)
  else
    match domains s !! N.to_nat (length - 1) with
    | None => revert (Panic 50)
    | Some last =>
        removeConnector_loop _domain last 0 (domains s) ;;
        pop_domain ;;
        emit (ConnectorRemoved _domain connector)
    end.

(** *** What a call leaves to observe *)

Definition calls_of (o : Outcome State unit) : list PropagateRoot :=
  match o with
  | Success _ s => calls s
  | Reverted _ s => calls s
  end.

Definition failure_of (o : Outcome State unit) : option Failure :=
  match o with
  | Success _ _ => None
  | Reverted e _ => Some e
  end.

(** The calls [propagate] is to make for the listed domains [ds]: one per
    entry whose connector is not the zero address, in the order of the list. *)
Definition propagate_calls (s : State) (data : bytes) (ds : list uint32)
    : list PropagateRoot :=
  map (fun d => mkPropagateRoot (connector_of s d) data)
      (List.filter (fun d => negb (connector_of s d =? 0)) ds).

Definition add_calls (l : list PropagateRoot) (s : State) : State :=
  mkState (owner s) (connectors s) (outboundRoots s) (domains s) (watchers s)
          (events s) (calls s ++ l).

(** Every call [propagate] is to make for the listed domains [ds] returns. *)
Definition connectors_return (returns : address -> bytes -> bool)
    (s : State) (data : bytes) (ds : list uint32) : bool :=
  forallb (fun d => (connector_of s d =? 0) || returns (connector_of s d) data) ds.

(** Every external call returns. *)
Definition always_returns : address -> bytes -> bool := fun _ _ => true.

(** An outcome in which the table of outbound roots is rewritten by [f]. *)
Definition with_roots (f : gmap N bytes32 -> gmap N bytes32)
    (o : Outcome State unit) : Outcome State unit :=
  match o with
  | Success a s => Success a (set_outboundRoots f s)
  | Reverted e s => Reverted e (set_outboundRoots f s)
  end.

End RootManager.

(** ** GnosisConnector.sol *)

Module GnosisConnector.
Import Solidity.
Local Open Scope sol_scope.
Local Open Scope N_scope.

(** [IRootManager(ROOT_MANAGER).setOutboundRoot(domain, outbound)], as sent. *)
Record SetOutboundRoot : Type := mkSetOutboundRoot {
  rootManager : address;
  domain : uint32;
  outbound : bytes32
}.

(** Modelled from the spec: the storage of [Connector.sol], which is not
    among the sources: the bridge ([AMB]) and the root manager the
    connector was deployed with, "the expected mirror connector on the
    expected source domain", and "this domain's newly propagated
    aggregate root".  [forwarded] logs the calls made to the root manager. *)
Record State : Type := mkState {
  AMB : address;
  ROOT_MANAGER : address;
  mirrorConnector : address;
  mirrorDomain : uint32;
  aggregateRoot : bytes32;
  forwarded : list SetOutboundRoot
}.

(** What a call sees of its environment: its caller, the chain it runs
    on, and the answers of the bridge to [messageSender()],
    [sourceChainId()] and [destinationChainId()]. *)
Record Env : Type := mkEnv {
  msg_sender : address;
  block_chainid : uint256;
  messageSender : address;
  sourceChainId : uint256;
  destinationChainId : uint256
}.

(** Modelled from the spec: [update] of [Connector.sol], which is not
    among the sources: it "store[s the payload] as this domain's newly
    propagated aggregate root". *)
Definition update (_newRoot : bytes32) : M State unit :=
  modify (fun s => mkState (AMB s) (ROOT_MANAGER s) (mirrorConnector s) (mirrorDomain s)
                           _newRoot (forwarded s)).

(** [IRootManager(ROOT_MANAGER).setOutboundRoot(_domain, _outbound)], an
    external call.  [accepts rm d r] tells whether the contract at [rm]
    returns from [setOutboundRoot(d, r)] called by this connector.  When
    it does, the call is recorded; when it does not (the root manager
    reverts, as it does for a caller that is not the connector bound to
    [d], or no contract lives at [rm]), the handler reverts with it. *)
Definition call_setOutboundRoot (accepts : address -> uint32 -> bytes32 -> bool)
    (_domain : uint32) (_outbound : bytes32) : M State unit :=
  s <- get ;;
  if accepts (ROOT_MANAGER s) _domain _outbound then
    modify (fun s => mkState (AMB s) (ROOT_MANAGER s) (mirrorConnector s) (mirrorDomain s)
                             (aggregateRoot s)
                             (forwarded s
                              ++ [mkSetOutboundRoot (ROOT_MANAGER s) _domain _outbound]))
  else revert CallReverted.

(** [BaseGnosisConnector._verifySender] *)
Definition _verifySender (env : Env) (_expected : address) : M State bool :=
  s <- get ;;
  require (msg_sender env =? AMB s) "!bridge" ;;
  ret (messageSender env =? _expected).

Module L2.

(** [GnosisL2Connector._processMessage] *)
Definition _processMessage (env : Env) (_sender : address) (_data : bytes)
    : M State unit :=
  s <- get ;;
  ok <- _verifySender env (mirrorConnector s) ;;
  require ok "!l1Connector" ;;
  require (destinationChainId env =? block_chainid env) "!destinationChain" ;;
  require (sourceChainId env =? 1) "!sourceChainId" ;;
  update (bytes32_of_bytes _data).

End L2.

Module L1.

(** [GnosisL1Connector._processMessage] *)
Definition _processMessage (accepts : address -> uint32 -> bytes32 -> bool)
    (env : Env) (_sender : address) (_data : bytes) : M State unit :=
  s <- get ;;
  ok <- _verifySender env (mirrorConnector s) ;;
  require ok "!l2Connector" ;;
  require (destinationChainId env =? block_chainid env) "!destinationChain" ;;
  require (sourceChainId env =? 100) "!sourceChainId" ;;
  require (N.of_nat (length _data) =? 32) "!length" ;;
  s <- get ;;
  call_setOutboundRoot accepts (mirrorDomain s) (bytes32_of_bytes _data).

End L1.

(** The message did not come from the mirror connector, or is not
    headed to this chain, or did not come from chain [source]. *)
Definition unverified (env : Env) (s : State) (source : uint256) : Prop :=
  messageSender env <> mirrorConnector s
  \/ destinationChainId env <> block_chainid env
  \/ sourceChainId env <> source.

(** The checks of a message handler: the caller is the bridge, the
    bridge reports the mirror connector as the sender, this chain as the
    destination and chain [source] as the origin. *)
Definition verified (env : Env) (s : State) (source : uint256) : Prop :=
  msg_sender env = AMB s
  /\ messageSender env = mirrorConnector s
  /\ destinationChainId env = block_chainid env
  /\ sourceChainId env = source.

End GnosisConnector.

(** ** A connector and the root manager it calls *)

Module Relay.
Import Solidity.
Local Open Scope N_scope.

(** The root manager that lives at address [hub_address], with its storage. *)
Record Hub : Type := mkHub {
  hub_address : address;
  hub : RootManager.State
}.

(** Whether [IRootManager(rm).setOutboundRoot(d, r)] returns when the
    connector at address [this] calls it: [rm] is the hub, and the hub's
    [setOutboundRoot], with [this] as [msg.sender], does not revert. *)
Definition hub_accepts (w : Hub) (this : address)
    : address -> uint32 -> bytes32 -> bool :=
  fun rm d r =>
    (rm =? hub_address w) && succeeds (RootManager.setOutboundRoot this d r) (hub w).

End Relay.

(* ====================================================================== *)
(** * Part II. Properties                                                  *)
(* ====================================================================== *)

(** ** JavaScript objects and JSON *)

Section JsFacts.
Import Js.

(** Induction on values, with the hypothesis at every property of an object. *)
Lemma JsVal_nested_ind (P : JsVal -> Prop) :
  P JUndefined -> P JNull -> (forall b, P (JBool b)) -> (forall n, P (JNum n)) ->
  (forall s, P (JStr s)) ->
  (forall props, Forall (fun kv => P (snd kv)) props -> P (JObj props)) ->
  forall v, P v.
Proof.
  intros Hu Hn Hb Hz Hs Ho.
  fix IH 1.
  intros [ | | b | n | s | props];
    [exact Hu | exact Hn | apply Hb | apply Hz | apply Hs | ].
  apply Ho. induction props as [|[k x] ps IHps]; constructor; [apply IH | exact IHps].
Qed.

Lemma get_prop_set_prop k k' v o :
  get_prop k (set_prop k' v o) = if String.eqb k' k then v else get_prop k o.
Proof.
  induction o as [|[k0 v0] o IH]; simpl.
  - reflexivity.
  - destruct (String.eqb_spec k0 k') as [->|Hk0]; simpl.
    + destruct (String.eqb k' k); reflexivity.
    + destruct (String.eqb_spec k0 k) as [->|Hk]; [|exact IH].
      destruct (String.eqb_spec k' k) as [->|_]; [contradiction | reflexivity].
Qed.

Lemma set_prop_fresh k v o :
  k ∉ map fst o -> set_prop k v o = o ++ [(k, v)].
Proof.
  induction o as [|[k0 v0] o IH]; simpl; intros Hk; [reflexivity|].
  apply not_elem_of_cons in Hk as [Hne Hk].
  destruct (String.eqb_spec k0 k) as [->|_]; [contradiction|].
  now rewrite IH.
Qed.

Lemma set_prop_keys k v o :
  k ∈ map fst o -> map fst (set_prop k v o) = map fst o.
Proof.
  induction o as [|[k0 v0] o IH]; simpl; intros Hk.
  - inversion Hk.
  - destruct (String.eqb_spec k0 k) as [->|Hne]; simpl; [reflexivity|].
    apply elem_of_cons in Hk as [->|Hk]; [contradiction|]. now rewrite IH.
Qed.

Lemma set_prop_unique k v o :
  NoDup (map fst o) -> NoDup (map fst (set_prop k v o)).
Proof.
  intros Hnd. destruct (decide (k ∈ map fst o)) as [Hin|Hnot].
  - now rewrite set_prop_keys.
  - rewrite set_prop_fresh by assumption. rewrite map_app. simpl.
    apply NoDup_app. split; [assumption|]. split.
    + intros x Hx Hx'. apply list_elem_of_singleton in Hx'. now subst.
    + apply NoDup_singleton.
Qed.

Lemma assign_all_unique l : forall acc,
  NoDup (map fst acc) -> NoDup (map fst (fold_left assign l acc)).
Proof.
  induction l as [|[k v] l IH]; simpl; intros acc Hacc; [assumption|].
  apply IH. now apply set_prop_unique.
Qed.

Lemma get_prop_assign_all_absent k l : forall acc,
  k ∉ map fst l -> get_prop k (fold_left assign l acc) = get_prop k acc.
Proof.
  induction l as [|[k0 v0] l IH]; simpl; intros acc Hk; [reflexivity|].
  apply not_elem_of_cons in Hk as [Hne Hk].
  rewrite IH by assumption. unfold assign. simpl. rewrite get_prop_set_prop.
  destruct (String.eqb_spec k0 k) as [->|_]; [contradiction | reflexivity].
Qed.

Lemma get_prop_assign_all_present k v l : forall acc,
  NoDup (map fst l) -> (k, v) ∈ l -> get_prop k (fold_left assign l acc) = v.
Proof.
  induction l as [|[k0 v0] l IH]; simpl; intros acc Hnd Hin.
  - inversion Hin.
  - apply NoDup_cons in Hnd as [Hk0 Hnd].
    apply elem_of_cons in Hin as [Heq|Hin].
    + inversion Heq; subst k0 v0.
      rewrite get_prop_assign_all_absent by assumption.
      unfold assign. simpl. rewrite get_prop_set_prop. now rewrite String.eqb_refl.
    + now apply IH.
Qed.

Lemma assign_all_fresh l : forall acc,
  NoDup (map fst (acc ++ l)) -> fold_left assign l acc = acc ++ l.
Proof.
  induction l as [|[k v] l IH]; simpl; intros acc Hnd.
  - now rewrite app_nil_r.
  - unfold assign at 2. simpl.
    rewrite map_app in Hnd. simpl in Hnd.
    rewrite set_prop_fresh.
    + rewrite IH; [now rewrite <- app_assoc|].
      rewrite <- app_assoc. simpl. now rewrite map_app.
    + apply NoDup_app in Hnd as (_ & Hdisj & _). intros Hk.
      apply (Hdisj k Hk). left.
Qed.

Lemma spread_unique a b : NoDup (map fst (spread a b)).
Proof. apply assign_all_unique. constructor. Qed.

Lemma get_prop_elem k v o :
  NoDup (map fst o) -> (k, v) ∈ o -> get_prop k o = v.
Proof.
  induction o as [|[k0 v0] o IH]; simpl; intros Hnd Hin.
  - inversion Hin.
  - apply NoDup_cons in Hnd as [Hk0 Hnd].
    apply elem_of_cons in Hin as [Heq|Hin].
    + inversion Heq; subst. now rewrite String.eqb_refl.
    + destruct (String.eqb_spec k0 k) as [->|_]; [|now apply IH].
      exfalso. apply Hk0. apply list_elem_of_fmap. now exists (k, v).
Qed.

Lemma get_prop_defined k o :
  get_prop k o <> JUndefined -> (k, get_prop k o) ∈ o.
Proof.
  induction o as [|[k0 v0] o IH]; simpl; intros Hv.
  - contradiction.
  - destruct (String.eqb_spec k0 k) as [->|_]; [left | right; now apply IH].
Qed.

Lemma get_prop_absent k o : k ∉ map fst o -> get_prop k o = JUndefined.
Proof.
  induction o as [|[k0 v0] o IH]; simpl; intros Hk; [reflexivity|].
  apply not_elem_of_cons in Hk as [Hne Hk].
  destruct (String.eqb_spec k0 k) as [->|_]; [contradiction | now apply IH].
Qed.

Lemma roundtrip_object_cons k x o :
  roundtrip_object ((k, x) :: o)
  = match x with
    | JUndefined => roundtrip_object o
    | _ => (k, JSON_roundtrip x) :: roundtrip_object o
    end.
Proof. unfold roundtrip_object. simpl. destruct x; reflexivity. Qed.

Lemma roundtrip_object_keys k o :
  k ∈ map fst (roundtrip_object o) -> k ∈ map fst o.
Proof.
  induction o as [|[k0 x] o IH]; [intros H; exact H|].
  rewrite roundtrip_object_cons. simpl.
  destruct x; simpl; intros H;
    try (apply elem_of_cons in H as [->|H]; [left | right; now apply IH]).
  right. now apply IH.
Qed.

Lemma roundtrip_object_unique o :
  NoDup (map fst o) -> NoDup (map fst (roundtrip_object o)).
Proof.
  induction o as [|[k0 x] o IH]; [intros H; exact H|].
  rewrite roundtrip_object_cons. simpl. intros Hnd.
  apply NoDup_cons in Hnd as [Hk0 Hnd].
  assert (Hk0' : k0 ∉ map fst (roundtrip_object o)).
  { intros H. apply Hk0. now apply roundtrip_object_keys. }
  destruct x; simpl; try (apply NoDup_cons; split; [exact Hk0' | now apply IH]).
  now apply IH.
Qed.

Lemma get_prop_roundtrip_object k o :
  NoDup (map fst o) ->
  get_prop k (roundtrip_object o) = JSON_roundtrip (get_prop k o).
Proof.
  induction o as [|[k0 x] o IH]; [reflexivity|].
  rewrite roundtrip_object_cons. simpl. intros Hnd.
  apply NoDup_cons in Hnd as [Hk0 Hnd]. specialize (IH Hnd).
  destruct (String.eqb_spec k0 k) as [->|Hne].
  - destruct x; simpl; rewrite ?String.eqb_refl; try reflexivity.
    rewrite IH. now rewrite (get_prop_absent k o Hk0).
  - destruct x; simpl; try exact IH;
      (destruct (String.eqb_spec k0 k) as [Heq|_]; [contradiction | exact IH]).
Qed.

Lemma is_json_object_cons k x o :
  is_json_object ((k, x) :: o) = is_json x && is_json_object o.
Proof. reflexivity. Qed.

Lemma JSON_roundtrip_object props :
  JSON_roundtrip (JObj props) = JObj (roundtrip_object props).
Proof. reflexivity. Qed.

(** Reading back what was read back changes nothing. *)
Lemma JSON_roundtrip_json v : is_json v = true -> JSON_roundtrip v = v.
Proof.
  induction v as [ | | b | n | s | props IH] using JsVal_nested_ind;
    intros Hj; try reflexivity.
  rewrite JSON_roundtrip_object. f_equal.
  change (is_json_object props = true) in Hj.
  induction props as [|[k x] ps IHps]; [reflexivity|].
  apply Forall_cons in IH as [Hx IH]. simpl in Hx.
  rewrite is_json_object_cons in Hj. apply andb_true_iff in Hj as [Hjx Hjps].
  rewrite roundtrip_object_cons.
  rewrite (Hx Hjx), (IHps IH Hjps).
  destruct x; [discriminate Hjx | reflexivity..].
Qed.

Lemma JSON_roundtrip_is_json v :
  v <> JUndefined -> is_json (JSON_roundtrip v) = true.
Proof.
  induction v as [ | | b | n | s | props IH] using JsVal_nested_ind;
    intros Hv; try reflexivity; [contradiction|].
  rewrite JSON_roundtrip_object. change (is_json_object (roundtrip_object props) = true).
  clear Hv. induction props as [|[k x] ps IHps]; [reflexivity|].
  apply Forall_cons in IH as [Hx IH]. simpl in Hx. specialize (IHps IH).
  rewrite roundtrip_object_cons.
  destruct x; try exact IHps;
    rewrite is_json_object_cons, IHps, andb_true_r; apply Hx; discriminate.
Qed.

Lemma roundtrip_object_is_json o : is_json_object (roundtrip_object o) = true.
Proof.
  change (is_json (JSON_roundtrip (JObj o)) = true).
  apply JSON_roundtrip_is_json. discriminate.
Qed.

Lemma is_json_object_prop k o :
  is_json_object o = true -> get_prop k o <> JUndefined -> is_json (get_prop k o) = true.
Proof.
  unfold is_json_object.
  induction o as [|[k0 x] o IH]; simpl; intros Hj Hv; [contradiction|].
  apply andb_true_iff in Hj as [Hx Ho].
  destruct (String.eqb k0 k); [exact Hx | now apply IH].
Qed.

End JsFacts.

(** ** The transfer cache *)

Section TransfersCacheFacts.
Import Js TransfersCache.

(** *** The null-safe collation *)

Lemma sanitizeNull_elem k v o :
  (k, v) ∈ sanitizeNull o <-> (k, v) ∈ o /\ is_nullish v = false.
Proof.
  unfold sanitizeNull. rewrite !list_elem_of_In, filter_In. simpl.
  now rewrite negb_true_iff.
Qed.

Lemma sanitizeNull_keys k o : k ∈ map fst (sanitizeNull o) -> k ∈ map fst o.
Proof.
  intros H. apply list_elem_of_fmap in H as ([k' v] & -> & H).
  apply sanitizeNull_elem in H as [H _].
  apply list_elem_of_fmap. now exists (k', v).
Qed.

Lemma sanitizeNull_unique o :
  NoDup (map fst o) -> NoDup (map fst (sanitizeNull o)).
Proof.
  induction o as [|[k v] o IH]; simpl; intros Hnd; [constructor|].
  apply NoDup_cons in Hnd as [Hk Hnd].
  destruct (negb (is_nullish v)); simpl; [|now apply IH].
  apply NoDup_cons. split; [|now apply IH].
  intros H. apply Hk. now apply sanitizeNull_keys.
Qed.

Lemma get_prop_sanitizeNull k o :
  NoDup (map fst o) ->
  get_prop k (sanitizeNull o)
  = if is_nullish (get_prop k o) then JUndefined else get_prop k o.
Proof.
  intros Hnd. destruct (is_nullish (get_prop k o)) eqn:Hn.
  - apply get_prop_absent. intros H.
    apply list_elem_of_fmap in H as ([k' v] & Hk & H). simpl in Hk. subst k'.
    apply sanitizeNull_elem in H as [H Hv].
    rewrite (get_prop_elem k v o Hnd H) in Hn. congruence.
  - apply get_prop_elem; [now apply sanitizeNull_unique|].
    apply sanitizeNull_elem. split; [|exact Hn].
    apply get_prop_defined. intros E. rewrite E in Hn. discriminate.
Qed.

(** What the collation holds for a property: the incoming value when it
    is neither [null] nor [undefined], else the stored one when that is
    neither [null] nor [undefined]. *)
Lemma get_prop_collate k e u :
  NoDup (map fst e) -> NoDup (map fst u) ->
  get_prop k (collate (Some e) u)
  = if is_nullish (get_prop k u)
    then (if is_nullish (get_prop k e) then JUndefined else get_prop k e)
    else get_prop k u.
Proof.
  intros He Hu. unfold collate, spread. rewrite fold_left_app.
  rewrite (assign_all_fresh (sanitizeNull e) []) by (now apply sanitizeNull_unique).
  simpl. pose proof (get_prop_sanitizeNull k u Hu) as Hku.
  destruct (is_nullish (get_prop k u)) eqn:Hn.
  - rewrite get_prop_assign_all_absent; [now apply get_prop_sanitizeNull|].
    intros H. apply list_elem_of_fmap in H as ([k' v] & Hk & H). simpl in Hk. subst k'.
    pose proof (sanitizeNull_elem k v u) as [Hel _]. destruct (Hel H) as [_ Hv].
    rewrite (get_prop_elem k v _ (sanitizeNull_unique u Hu) H) in Hku.
    subst v. discriminate.
  - apply get_prop_assign_all_present; [now apply sanitizeNull_unique|].
    apply sanitizeNull_elem. split; [|exact Hn].
    apply get_prop_defined. intros E. rewrite E in Hn. discriminate.
Qed.

Lemma collate_unique existing u :
  NoDup (map fst u) -> NoDup (map fst (collate existing u)).
Proof. destruct existing; simpl; [intros _; apply spread_unique | trivial]. Qed.

Lemma typed_unique u : XTransfer_typed u = true -> NoDup (map fst u).
Proof.
  unfold XTransfer_typed. rewrite !andb_true_iff. intros [[[H _] _] _].
  now apply bool_decide_eq_true in H.
Qed.

Lemma typed_transferId u :
  XTransfer_typed u = true -> get_prop "transferId" u = JStr (transferId u).
Proof.
  unfold XTransfer_typed, transferId, string_prop. rewrite !andb_true_iff.
  intros [[[_ H] _] _]. destruct (get_prop "transferId" u); try discriminate. reflexivity.
Qed.

(** The collated record is written under the id it was looked up with. *)
Lemma collate_transferId existing u :
  XTransfer_typed u = true ->
  (forall e, existing = Some e -> NoDup (map fst e)) ->
  transferId (collate existing u) = transferId u.
Proof.
  intros Ht He. destruct existing as [e|]; [|reflexivity].
  unfold transferId at 1. unfold string_prop.
  rewrite get_prop_collate by (eauto using typed_unique).
  now rewrite (typed_transferId u Ht).
Qed.

(** *** The pending index *)

Lemma includes_elem l x : includes l x = true <-> x ∈ l.
Proof.
  unfold includes. rewrite existsb_exists, list_elem_of_In. split.
  - intros (y & Hy & E). apply String.eqb_eq in E. now subst.
  - intros H. exists x. split; [exact H | apply String.eqb_refl].
Qed.

Lemma getPending_insert c d l d' :
  getPending (mkCache (transfers c) (<[d := l]> (pending c)) (nonces c) (errors c)) d'
  = if decide (d = d') then l else getPending c d'.
Proof.
  unfold getPending. simpl. rewrite lookup_insert. now destruct (decide (d = d')).
Qed.

Lemma getPending_addPending c d id d' t :
  t ∈ getPending (addPending c d id) d'
  <-> t ∈ getPending c d' \/ (d' = d /\ t = id).
Proof.
  unfold addPending. destruct (includes (getPending c d) id) eqn:Hinc; simpl.
  - apply includes_elem in Hinc. split; [now left|].
    intros [H|[-> ->]]; assumption.
  - rewrite getPending_insert. destruct (decide (d = d')) as [<-|Hne].
    + rewrite elem_of_app, list_elem_of_singleton. intuition.
    + intuition congruence.
Qed.

Lemma addPending_unique c d id :
  (forall d', NoDup (getPending c d')) ->
  forall d', NoDup (getPending (addPending c d id) d').
Proof.
  intros Hnd d'. unfold addPending.
  destruct (includes (getPending c d) id) eqn:Hinc; simpl; [apply Hnd|].
  rewrite getPending_insert. destruct (decide (d = d')); [|apply Hnd].
  apply NoDup_app. split; [apply Hnd|]. split; [|apply NoDup_singleton].
  intros x Hx Hx'. apply list_elem_of_singleton in Hx'. subst x.
  apply includes_elem in Hx. congruence.
Qed.

Lemma findIndex_None l x : findIndex l x = None <-> x ∉ l.
Proof.
  induction l as [|y l IH]; simpl.
  - split; [intros _ H; inversion H | reflexivity].
  - destruct (String.eqb_spec y x) as [->|Hne].
    + split; [discriminate | intros H; exfalso; apply H; left].
    + rewrite not_elem_of_cons, <- IH. destruct (findIndex l x); simpl.
      * split; [discriminate | intros [_ H]; discriminate].
      * split; [intros _; split; [congruence | reflexivity] | reflexivity].
Qed.

(** [splice(index, 1)] at the index of an id that occurs once removes it. *)
Lemma findIndex_delete l x : forall i,
  NoDup l -> findIndex l x = Some i ->
  NoDup (delete i l) /\ (forall t, t ∈ delete i l <-> t ∈ l /\ t <> x).
Proof.
  induction l as [|y l IH]; simpl; intros i Hnd Hi; [discriminate|].
  apply NoDup_cons in Hnd as [Hy Hnd].
  destruct (String.eqb_spec y x) as [->|Hne].
  - inversion Hi; subst i. simpl. split; [exact Hnd|].
    intros t. rewrite elem_of_cons. split.
    + intros Ht. split; [now right | intros ->; contradiction].
    + intros [[->|Ht] Hne]; [contradiction | exact Ht].
  - destruct (findIndex l x) as [j|] eqn:Hj; [|discriminate].
    inversion Hi; subst i. simpl.
    destruct (IH j Hnd eq_refl) as [Hnd' Hel]. split.
    + apply NoDup_cons. split; [|exact Hnd'].
      intros H. apply Hel in H as [H _]. contradiction.
    + intros t. rewrite !elem_of_cons, Hel. split.
      * intros [->|[Ht Htx]]; split; auto.
      * intros [[->|Ht] Htx]; auto.
Qed.

Lemma getPending_removePending c d id d' t :
  NoDup (getPending c d) ->
  t ∈ getPending (snd (removePending c d id)) d'
  <-> t ∈ getPending c d' /\ ~ (d' = d /\ t = id).
Proof.
  intros Hnd. unfold removePending.
  destruct (findIndex (getPending c d) id) as [i|] eqn:Hi; simpl.
  - destruct (findIndex_delete _ _ _ Hnd Hi) as [_ Hel].
    rewrite getPending_insert. destruct (decide (d = d')) as [<-|Hne].
    + rewrite Hel. intuition.
    + intuition congruence.
  - apply findIndex_None in Hi. split; [|tauto].
    intros Ht. split; [exact Ht|]. intros [-> ->]. contradiction.
Qed.

Lemma removePending_unique c d id :
  (forall d', NoDup (getPending c d')) ->
  forall d', NoDup (getPending (snd (removePending c d id)) d').
Proof.
  intros Hnd d'. unfold removePending.
  destruct (findIndex (getPending c d) id) as [i|] eqn:Hi; simpl; [|apply Hnd].
  rewrite getPending_insert. destruct (decide (d = d')); [|apply Hnd].
  now destruct (findIndex_delete _ _ _ (Hnd d) Hi).
Qed.

Lemma addPending_transfers c d id : transfers (addPending c d id) = transfers c.
Proof. unfold addPending. now destruct (negb _). Qed.

Lemma removePending_transfers c d id :
  transfers (snd (removePending c d id)) = transfers c.
Proof. unfold removePending. now destruct (findIndex _ _). Qed.

(** *** One record written *)

Lemma write_transfer_transfers c m :
  transfers (write_transfer c m)
  = <[transferId m := roundtrip_object m]> (transfers c).
Proof.
  unfold write_transfer.
  destruct (_ && is_pending m); [apply addPending_transfers|].
  destruct (is_complete m); [apply removePending_transfers | reflexivity].
Qed.

Lemma is_pending_not_complete m : is_pending m = true -> is_complete m = false.
Proof.
  unfold is_pending, is_complete. rewrite !andb_true_iff, !negb_true_iff.
  intros [[_ ->] ->]. reflexivity.
Qed.

(** The pending index after a record is written: its id enters the
    index of its origin domain when the record is new and pending,
    leaves it when the record is complete, and nothing else moves. *)
Lemma getPending_write_transfer c m d t :
  (forall d', NoDup (getPending c d')) ->
  t ∈ getPending (write_transfer c m) d
  <-> if decide (t = transferId m /\ d = originDomain m)
      then (transfers c !! transferId m = None /\ is_pending m = true)
           \/ (t ∈ getPending c d /\ is_complete m = false)
      else t ∈ getPending c d.
Proof.
  intros Hnd. unfold write_transfer, hset_added.
  set (c1 := mkCache _ (pending c) (nonces c) (errors c)).
  assert (Hc1 : forall d', getPending c1 d' = getPending c d') by reflexivity.
  destruct (transfers c !! transferId m) as [r|] eqn:Hr; simpl.
  - destruct (is_complete m) eqn:Hcomp.
    + rewrite getPending_removePending by (rewrite Hc1; apply Hnd). rewrite Hc1.
      destruct (decide _) as [[-> ->]|Hne]; [|tauto].
      split; [tauto|]. intros [[? _]|[_ ?]]; discriminate.
    + rewrite Hc1. destruct (decide _) as [[-> ->]|Hne]; [|tauto].
      split; [tauto|]. intros [[? _]|[? _]]; [discriminate | assumption].
  - destruct (is_pending m) eqn:Hpend; simpl.
    + rewrite getPending_addPending, Hc1.
      destruct (decide _) as [[-> ->]|Hne]; [tauto|].
      split; [|tauto]. intros [H|[-> ->]]; [exact H | tauto].
    + destruct (is_complete m) eqn:Hcomp.
      * rewrite getPending_removePending by (rewrite Hc1; apply Hnd). rewrite Hc1.
        destruct (decide _) as [[-> ->]|Hne]; [|tauto].
        split; [tauto|]. intros [[_ ?]|[_ ?]]; discriminate.
      * rewrite Hc1. destruct (decide _) as [[-> ->]|Hne]; [|tauto].
        split; [tauto|]. intros [[_ ?]|[? _]]; [discriminate | assumption].
Qed.

Lemma write_transfer_unique c m :
  (forall d', NoDup (getPending c d')) ->
  forall d', NoDup (getPending (write_transfer c m) d').
Proof.
  intros Hnd. unfold write_transfer.
  set (c1 := mkCache _ (pending c) (nonces c) (errors c)).
  assert (Hc1 : forall d', NoDup (getPending c1 d')) by exact Hnd.
  destruct (_ && is_pending m); [now apply addPending_unique|].
  destruct (is_complete m); [now apply removePending_unique | exact Hc1].
Qed.

(** *** A whole call *)

Lemma publish_nonce_keeps did l : forall c evs,
  let c' := fst (fold_left (publish_nonce did) l (c, evs)) in
  transfers c' = transfers c /\ pending c' = pending c /\ errors c' = errors c.
Proof.
  induction l as [|[d n] l IH]; intros c evs; simpl; [auto|].
  destruct (did !! d) as [[|]|]; try apply IH.
  destruct (IH (mkCache (transfers c) (pending c) (<[d := n]> (nonces c)) (errors c))
               (evs ++ [mkNewHighestNonce d n])) as (H1 & H2 & H3).
  simpl in *. now rewrite H1, H2, H3.
Qed.

Lemma storeTransfers_transfers c ts :
  transfers (fst (storeTransfers c ts))
  = transfers (data (fold_left store_transfer ts (mkBatch c ∅ ∅))).
Proof. unfold storeTransfers. apply publish_nonce_keeps. Qed.

Lemma storeTransfers_pending c ts d :
  getPending (fst (storeTransfers c ts)) d
  = getPending (data (fold_left store_transfer ts (mkBatch c ∅ ∅))) d.
Proof.
  unfold storeTransfers, getPending.
  now destruct (publish_nonce_keeps
                  (nonceDidIncreaseForDomain (fold_left store_transfer ts (mkBatch c ∅ ∅)))
                  (map_to_list (highestNonceByDomain
                                  (fold_left store_transfer ts (mkBatch c ∅ ∅))))
                  (data (fold_left store_transfer ts (mkBatch c ∅ ∅))) [])
    as (_ & -> & _).
Qed.

(** The store after one turn of the loop. *)
Lemma data_store_transfer st u :
  data (store_transfer st u)
  = let existing := getTransfer (data st) (transferId u) in
    if same_stringified u existing then data st
    else write_transfer (data st) (collate existing u).
Proof.
  unfold store_transfer. simpl.
  destruct (same_stringified _ _); [reflexivity|].
  now destruct (track_nonce _ _ _ _).
Qed.

Lemma store_transfer_ok st u :
  XTransfer_typed u = true -> cache_ok (data st) -> cache_ok (data (store_transfer st u)).
Proof.
  intros Ht [Hnd Hrec]. rewrite data_store_transfer. simpl.
  destruct (same_stringified _ _); [now split|].
  split; [now apply write_transfer_unique|].
  intros id r. rewrite write_transfer_transfers, lookup_insert.
  destruct (decide _) as [_|_]; [|apply Hrec].
  intros E. inversion E; subst r. split; [|apply roundtrip_object_is_json].
  apply roundtrip_object_unique, collate_unique. now apply typed_unique.
Qed.

Lemma store_transfers_ok ts : forall st,
  Forall (fun t => XTransfer_typed t = true) ts ->
  cache_ok (data st) -> cache_ok (data (fold_left store_transfer ts st)).
Proof.
  induction ts as [|u ts IH]; simpl; intros st Hts Hok; [exact Hok|].
  apply Forall_cons in Hts as [Hu Hts]. apply IH; [exact Hts|].
  now apply store_transfer_ok.
Qed.

Lemma reachable_ok c : reachable c -> cache_ok c.
Proof.
  induction 1 as [|c ts _ IH Hts|c id e _ IH].
  - split; [intros d; constructor | intros id r H; inversion H].
  - pose proof (store_transfers_ok ts (mkBatch c ∅ ∅) Hts IH) as [Hnd Hrec].
    split.
    + intros d. rewrite storeTransfers_pending. apply Hnd.
    + intros id r. rewrite storeTransfers_transfers. apply Hrec.
  - unfold saveError. destruct (negb _); exact IH.
Qed.

(** *** Claims on the records and the pending index *)

(** C1 (as the code has it).  In a store reached from the empty one,
    after [storeTransfers([U])] for a well-typed [U]: when [U] is
    skipped as identical to the stored record the pending index is as
    before; otherwise, with [M] the collated record, [getPending(D)]
    contains [T] iff
    - [(T, D)] is [(M.transferId, M.originDomain)] and either no record
      was stored for [T] and [M] is pending, or [T] was in
      [getPending(D)] already and [M] has neither [execute] nor
      [reconcile];
    - or [(T, D)] is another pair and [T] was in [getPending(D)] already.
    An id enters the index only when its record is first persisted. *)
Theorem C1_pending_index_after_store c U D T :
  reachable c ->
  XTransfer_typed U = true ->
  let existing := getTransfer c (transferId U) in
  let M := collate existing U in
  T ∈ getPending (fst (storeTransfers c [U])) D
  <-> if same_stringified U existing then T ∈ getPending c D
      else if decide (T = transferId M /\ D = originDomain M)
           then (existing = None /\ is_pending M = true)
                \/ (T ∈ getPending c D /\ is_complete M = false)
           else T ∈ getPending c D.
Proof.
  intros Hreach Ht existing M.
  destruct (reachable_ok c Hreach) as [Hnd Hrec].
  rewrite storeTransfers_pending. simpl fold_left. rewrite data_store_transfer.
  simpl. fold existing. destruct (same_stringified U existing); [reflexivity|].
  fold M. rewrite getPending_write_transfer by exact Hnd.
  assert (Hid : transferId M = transferId U).
  { apply collate_transferId; [exact Ht|]. intros e He. now apply (Hrec _ _ He). }
  unfold getTransfer in existing. rewrite Hid. reflexivity.
Qed.

Lemma C1_pending_index_after_store_witness :
  let c := fst (storeTransfers empty_cache [T_no_xcall]) in
  "0xt1" ∈ getPending (fst (storeTransfers c [T_xcall])) "1337"
  <-> (getTransfer c "0xt1" = None /\ is_pending (collate (getTransfer c "0xt1") T_xcall) = true)
      \/ ("0xt1" ∈ getPending c "1337"
          /\ is_complete (collate (getTransfer c "0xt1") T_xcall) = false).
Proof.
  intros c.
  pose proof (C1_pending_index_after_store c T_xcall "1337" "0xt1") as H.
  assert (Hreach : reachable c).
  { apply reachable_store; [apply reachable_empty|].
    constructor; [vm_compute; reflexivity | constructor]. }
  specialize (H Hreach eq_refl).
  exact H.
Defined.

(** C1, the claim refuted: a record first persisted without [xcall] and
    then brought into the pending state by a merge (origin domain 1337,
    [xcall] present, [execute] and [reconcile] absent) is not in the
    pending index of its origin domain. *)
Lemma C1_late_xcall_not_indexed :
  let c1 := fst (storeTransfers empty_cache [T_no_xcall]) in
  let c2 := fst (storeTransfers c1 [T_xcall]) in
  exists r,
    getTransfer c2 "0xt1" = Some r
    /\ originDomain r = "1337"
    /\ is_nullish (get_prop "xcall" r) = false
    /\ get_prop "execute" r = JUndefined
    /\ get_prop "reconcile" r = JUndefined
    /\ is_pending r = true
    /\ ~ "0xt1" ∈ getPending c2 "1337".
Proof.
  eexists. split; [vm_compute; reflexivity|].
  repeat split. vm_compute. intros H. inversion H.
Qed.

(** C6.  When the stored record [R] of an id holds a value for a
    property (the sub-records [xcall], [execute], [reconcile] or any
    other) and the incoming update [U] holds [null] or nothing there,
    the record stored after [storeTransfers([U])] holds [R]'s value. *)
Theorem C6_merge_never_regresses c U R field :
  reachable c ->
  XTransfer_typed U = true ->
  getTransfer c (transferId U) = Some R ->
  is_nullish (get_prop field R) = false ->
  is_nullish (get_prop field U) = true ->
  exists R',
    getTransfer (fst (storeTransfers c [U])) (transferId U) = Some R'
    /\ get_prop field R' = get_prop field R.
Proof.
  intros Hreach Ht HR HfR HfU.
  destruct (reachable_ok c Hreach) as [_ Hrec].
  destruct (Hrec _ _ HR) as [HRu HRj].
  unfold getTransfer. rewrite storeTransfers_transfers. simpl fold_left.
  rewrite data_store_transfer. simpl. rewrite HR.
  destruct (same_stringified U (Some R)); [now exists R|].
  rewrite write_transfer_transfers.
  rewrite collate_transferId
    by (try exact Ht; intros e He; inversion He; now subst).
  rewrite lookup_insert_eq. eexists. split; [reflexivity|].
  rewrite get_prop_roundtrip_object by (apply spread_unique).
  rewrite get_prop_collate by (eauto using typed_unique).
  rewrite HfU, HfR. apply JSON_roundtrip_json.
  apply is_json_object_prop; [exact HRj|].
  intros E. rewrite E in HfR. discriminate.
Qed.

(** The stored record has its [xcall]; the update brings [execute] and
    holds [null] for [xcall]. *)
Lemma C6_merge_never_regresses_witness :
  let c := fst (storeTransfers empty_cache [T_xcall]) in
  exists R',
    getTransfer (fst (storeTransfers c [T_execute])) (transferId T_execute) = Some R'
    /\ get_prop "xcall" R' = get_prop "xcall" T_xcall.
Proof.
  intros c.
  apply (C6_merge_never_regresses c T_execute T_xcall "xcall").
  - apply reachable_store; [apply reachable_empty|].
    constructor; [vm_compute; reflexivity | constructor].
  - vm_compute. reflexivity.
  - vm_compute. reflexivity.
  - reflexivity.
  - reflexivity.
Defined.

(** *** The error ledger *)

Lemma length_append (s1 s2 : string) :
  String.length (s1 +:+ s2) = (String.length s1 + String.length s2)%nat.
Proof. induction s1 as [|c s1 IH]; simpl; [reflexivity | now rewrite IH]. Qed.

Lemma escape_char_length c : (1 <= String.length (escape_char c))%nat.
Proof.
  unfold escape_char.
  repeat match goal with
         | |- context [if ?b then _ else _] => destruct b
         end; simpl; lia.
Qed.

Lemma escape_length s : (String.length s <= String.length (escape s))%nat.
Proof.
  induction s as [|c s IH]; simpl; [lia|].
  rewrite length_append. pose proof (escape_char_length c). lia.
Qed.

(** The JSON text of a string is never the string itself: it is longer
    by its two quotes at least. *)
Lemma quote_differs s : quote s <> s.
Proof.
  intros E. apply (f_equal String.length) in E. unfold quote in E.
  simpl in E. rewrite length_append in E. simpl in E.
  pose proof (escape_length s). lia.
Qed.

Lemma includes_app l1 l2 x : includes (l1 ++ l2) x = includes l1 x || includes l2 x.
Proof. unfold includes. apply existsb_app. Qed.

Lemma saveError_answer c id X :
  fst (saveError c id X) = true -> includes (getErrors c id) (quote X) = false.
Proof. unfold saveError. cbn [fst]. apply negb_true_iff. Qed.

Lemma saveError_new c id X :
  includes (getErrors c id) (quote X) = false ->
  saveError c id X
  = (true, mkCache (transfers c) (pending c) (nonces c)
                   (<[id := getErrors c id ++ [X]]> (errors c))).
Proof. unfold saveError. now intros ->. Qed.

(** C3 (code defect).  [saveError] looks for the JSON text of the error
    (the string in quotes) in a list that holds the errors themselves,
    so it never finds the error it has just stored: when the first
    call of [saveError(id, X)] answers [true], so does the second, and
    the list of errors of [id] ends with [X] twice. *)
Theorem C3_saveError_stores_duplicates c id X :
  fst (saveError c id X) = true ->
  let c1 := snd (saveError c id X) in
  fst (saveError c1 id X) = true
  /\ getErrors (snd (saveError c1 id X)) id = getErrors c id ++ [X; X].
Proof.
  intros Hnew. apply saveError_answer in Hnew.
  rewrite (saveError_new c id X Hnew). cbn [fst snd].
  set (c1 := mkCache _ _ _ _).
  assert (Hcur : getErrors c1 id = getErrors c id ++ [X]).
  { unfold getErrors at 1, c1. cbn [errors]. now rewrite lookup_insert_eq. }
  assert (Hnew1 : includes (getErrors c1 id) (quote X) = false).
  { rewrite Hcur, includes_app, Hnew. cbn [orb]. unfold includes. cbn [existsb].
    rewrite orb_false_r. apply String.eqb_neq, quote_differs. }
  rewrite (saveError_new c1 id X Hnew1). cbn [fst snd]. split; [reflexivity|].
  unfold getErrors at 1. cbn [errors]. rewrite lookup_insert_eq. cbn [default].
  now rewrite Hcur, <- app_assoc.
Qed.

(** On the empty store: [saveError("0xt1", "X")] answers [true] twice
    and the errors of the transfer are [["X"; "X"]]. *)
Lemma C3_saveError_stores_duplicates_witness :
  let c1 := snd (saveError empty_cache "0xt1" "X") in
  fst (saveError empty_cache "0xt1" "X") = true
  /\ fst (saveError c1 "0xt1" "X") = true
  /\ getErrors (snd (saveError c1 "0xt1" "X")) "0xt1" = ["X"; "X"].
Proof.
  split; [reflexivity|].
  apply (C3_saveError_stores_duplicates empty_cache "0xt1" "X"). reflexivity.
Defined.

(** *** The nonce watermark *)

Lemma write_transfer_nonces c m : nonces (write_transfer c m) = nonces c.
Proof.
  unfold write_transfer, addPending, removePending.
  repeat match goal with
         | |- context [if ?b then _ else _] => destruct b
         | |- context [match ?o with Some _ => _ | None => _ end] => destruct o
         end; reflexivity.
Qed.

Lemma getLatestNonce_write_transfer c m d :
  getLatestNonce (write_transfer c m) d = getLatestNonce c d.
Proof. unfold getLatestNonce. now rewrite write_transfer_nonces. Qed.

(** The part of the nonce claim that holds: a call never lowers a
    watermark, publishes an event for every domain whose watermark it
    raised, and publishes at most one event per domain. *)

Lemma track_nonce_above c0 c highest did u :
  (forall d, getLatestNonce c d = getLatestNonce c0 d) ->
  (forall d n, highest !! d = Some n -> (getLatestNonce c0 d <= n)%Z) ->
  forall d n, (track_nonce c highest did u).1 !! d = Some n ->
              (getLatestNonce c0 d <= n)%Z.
Proof.
  intros Hc Hh d n. unfold track_nonce.
  set (od := originDomain u). rewrite (Hc od).
  destruct (highest !! od) as [m|] eqn:Hm;
    [destruct (m =? 0)%Z|];
    destruct (Number (get_prop "nonce" u)) as [k|];
    try match goal with
        | |- context [(?k >? ?x)%Z] => destruct (Z.gtb_spec k x)
        end;
    cbn [fst]; rewrite ?lookup_insert;
    repeat match goal with
           | |- context [decide ?P] => destruct (decide P)
           end;
    intros E; try (apply Hh in E; lia); try (inversion E; subst; clear E);
    try lia; try (apply Hh in Hm; lia).
Qed.

Lemma store_transfers_above c0 ts : forall st,
  nonces (data st) = nonces c0 ->
  (forall d n, highestNonceByDomain st !! d = Some n -> (getLatestNonce c0 d <= n)%Z) ->
  let st' := fold_left store_transfer ts st in
  nonces (data st') = nonces c0
  /\ (forall d n, highestNonceByDomain st' !! d = Some n -> (getLatestNonce c0 d <= n)%Z).
Proof.
  induction ts as [|u ts IH]; intros st Hn Hh; [now split|].
  cbn [fold_left]. apply IH.
  - rewrite data_store_transfer. cbn zeta.
    destruct (same_stringified _ _); [exact Hn | now rewrite write_transfer_nonces].
  - unfold store_transfer. destruct (same_stringified _ _); [exact Hh|].
    intros d n.
    pose proof (track_nonce_above c0
                  (write_transfer (data st) (collate (getTransfer (data st) (transferId u)) u))
                  (highestNonceByDomain st) (nonceDidIncreaseForDomain st)
                  (collate (getTransfer (data st) (transferId u)) u)) as Hstep.
    destruct (track_nonce _ _ _ _) as [h' d']. cbn [highestNonceByDomain].
    apply Hstep; [|exact Hh].
    intros d0. unfold getLatestNonce. now rewrite write_transfer_nonces, Hn.
Qed.

Lemma publish_nonce_above c0 did l : forall c evs,
  (forall d n, (d, n) ∈ l -> (getLatestNonce c0 d <= n)%Z) ->
  (forall d, (getLatestNonce c0 d <= getLatestNonce c d)%Z) ->
  forall d, (getLatestNonce c0 d
             <= getLatestNonce (fold_left (publish_nonce did) l (c, evs)).1 d)%Z.
Proof.
  induction l as [|[d0 n0] l IH]; intros c evs Hl Hc; [exact Hc|].
  cbn [fold_left publish_nonce].
  assert (Hl' : forall d n, (d, n) ∈ l -> (getLatestNonce c0 d <= n)%Z).
  { intros d n H. apply Hl. now right. }
  destruct (did !! d0) as [[|]|]; try (apply IH; assumption).
  apply IH; [exact Hl'|].
  intros d. unfold getLatestNonce at 2. cbn [nonces]. rewrite lookup_insert.
  destruct (decide (d0 = d)) as [<-|_]; [apply Hl; left | apply Hc].
Qed.

Lemma getLatestNonce_monotone c ts d :
  (getLatestNonce c d <= getLatestNonce (storeTransfers c ts).1 d)%Z.
Proof.
  unfold storeTransfers.
  destruct (store_transfers_above c ts (mkBatch c ∅ ∅) eq_refl) as [Hn Hh].
  { intros d0 n H. cbn in H. now rewrite lookup_empty in H. }
  apply publish_nonce_above.
  - intros d0 n H. apply elem_of_map_to_list in H. now apply Hh.
  - intros d0. unfold getLatestNonce. rewrite Hn. lia.
Qed.





(** C2 (code defect).  The first record of a domain met in a call sets
    [nonceDidIncreaseForDomain] for it, whatever its nonce.  So a call
    that merges one record whose nonce [n] is not above the watermark
    of its origin domain still publishes a [NewHighestNonce] event for
    that domain, with the watermark it had, and leaves it there. *)
Theorem C2_event_without_increase c U n :
  let existing := getTransfer c (transferId U) in
  let M := collate existing U in
  same_stringified U existing = false ->
  Number (get_prop "nonce" M) = Some n ->
  (n <= getLatestNonce c (originDomain M))%Z ->
  snd (storeTransfers c [U])
  = [mkNewHighestNonce (originDomain M) (getLatestNonce c (originDomain M))]
  /\ getLatestNonce (fst (storeTransfers c [U])) (originDomain M)
     = getLatestNonce c (originDomain M).
Proof.
  intros existing M Hskip Hn Hle.
  unfold storeTransfers. cbn [fold_left]. unfold store_transfer. cbn [data].
  fold existing. rewrite Hskip. fold M.
  unfold track_nonce. cbn [highestNonceByDomain nonceDidIncreaseForDomain].
  rewrite lookup_empty, Hn, getLatestNonce_write_transfer.
  destruct (Z.gtb_spec n (getLatestNonce c (originDomain M))) as [Hgt|_]; [lia|].
  cbn [highestNonceByDomain nonceDidIncreaseForDomain data].
  rewrite !insert_empty, map_to_list_singleton. cbn [fold_left publish_nonce].
  rewrite lookup_singleton_eq. cbn [fst snd app]. split; [reflexivity|].
  unfold getLatestNonce at 1. cbn [nonces]. now rewrite lookup_insert_eq.
Qed.

(** The watermark of domain 1337 is 5; a call stores a record of that
    domain with nonce 3: the event [{domain: "1337", nonce: 5}] is
    published and the watermark is still 5. *)
Lemma C2_event_without_increase_witness :
  let c := fst (storeTransfers empty_cache [T_nonce5]) in
  getLatestNonce c "1337" = 5%Z
  /\ snd (storeTransfers c [T_nonce3]) = [mkNewHighestNonce "1337" 5]
  /\ getLatestNonce (fst (storeTransfers c [T_nonce3])) "1337" = 5%Z.
Proof.
  intros c. split; [vm_compute; reflexivity|].
  apply (C2_event_without_increase c T_nonce3 3).
  - vm_compute. reflexivity.
  - vm_compute. reflexivity.
  - vm_compute. discriminate.
Defined.

(** C7 (code defect, the one of C2).  The store holds a record with its
    [xcall]; the update [T_execute_only] brings [execute].  The second of
    two calls [storeTransfers([T_execute_only])] leaves the store, the
    pending index with it, as the first left it, and publishes a
    [NewHighestNonce] event again, for a watermark that was 1 before
    either call. *)
Theorem C7_second_merge_publishes_again :
  let c0 := (storeTransfers empty_cache [T_xcall]).1 in
  let c1 := (storeTransfers c0 [T_execute_only]).1 in
  (storeTransfers c1 [T_execute_only]).1 = c1
  /\ getPending c1 "1337" = []
  /\ getLatestNonce c0 "1337" = 1%Z
  /\ (storeTransfers c0 [T_execute_only]).2 = [mkNewHighestNonce "1337" 1]
  /\ (storeTransfers c1 [T_execute_only]).2 = [mkNewHighestNonce "1337" 1].
Proof. repeat split; vm_compute; reflexivity. Qed.

End TransfersCacheFacts.

(** ** The hub: RootManager *)

Section RootManagerProperties.
Import Solidity RootManager.
Local Open Scope N_scope.

Ltac run := unfold bind, get, modify, require, revert, ret in *; simpl in *.

Lemma onlyConnector_rejects s caller d :
  connector_of s d <> caller ->
  onlyConnector caller d s = Reverted (RequireFailed "!connector") s.
Proof.
  intros Hne. unfold onlyConnector. run.
  destruct (N.eqb_spec (connector_of s d) caller); [contradiction | reflexivity].
Qed.

Lemma onlyWatcher_rejects s caller :
  is_watcher s caller = false ->
  onlyWatcher caller s = Reverted (RequireFailed "!watcher") s.
Proof. intros Hw. unfold onlyWatcher. run. rewrite Hw. reflexivity. Qed.

Lemma onlyWatcher_accepts s caller :
  is_watcher s caller = true -> onlyWatcher caller s = Success tt s.
Proof. intros Hw. unfold onlyWatcher. run. rewrite Hw. reflexivity. Qed.

Lemma onlyOwner_accepts s caller :
  owner s = caller -> onlyOwner caller s = Success tt s.
Proof. intros Ho. unfold onlyOwner. run. rewrite Ho, N.eqb_refl. reflexivity. Qed.

(** The search of [removeConnector] runs to the end of the list, and
    writes nothing, when the domain is not listed and the counter stays
    within a [uint8]. *)
Lemma removeConnector_loop_absent d lst rest : forall i s,
  ~ In d rest ->
  i + N.of_nat (length rest) <= 255 ->
  removeConnector_loop d lst i rest s = Success tt s.
Proof.
  induction rest as [|x rest IH]; intros i s Hnot Hlen; simpl.
  - reflexivity.
  - destruct (N.eqb_spec x d) as [->|Hxd].
    + exfalso. apply Hnot. now left.
    + simpl length in Hlen.
      destruct (N.eqb_spec i 255) as [->|Hi]; [lia|].
      apply IH; [intros Hin; apply Hnot; now right | lia].
Qed.

Lemma pop_domain_nonempty s :
  domains s <> [] ->
  pop_domain s = Success tt (set_domains (fun ds => removelast ds) s).
Proof.
  intros Hne. unfold pop_domain. run.
  destruct (domains s); [contradiction | reflexivity].
Qed.

(** The loop of [propagate] reads the connector bindings only: another
    table of outbound roots changes neither its calls nor its end. *)
Lemma propagate_loop_roots f returns agg rest : forall i s,
  propagate_loop returns agg i rest (set_outboundRoots f s)
  = with_roots f (propagate_loop returns agg i rest s).
Proof.
  induction rest as [|d rest IH]; intros i s; simpl.
  - reflexivity.
  - run. change (connector_of (set_outboundRoots f s) d) with (connector_of s d).
    unfold call_propagateRoot.
    destruct (negb (connector_of s d =? 0)); simpl;
      [destruct (returns (connector_of s d) agg); simpl; [|reflexivity]|];
      (destruct (i =? 255); [reflexivity |]);
      match goal with
      | |- _ = with_roots _ (propagate_loop _ _ _ _ ?s2) => exact (IH _ s2)
      end.
Qed.

(** The part of the propagation claim that holds: with 1 to 255 listed
    domains, every listed connector that is not the zero address is sent
    the same value, the packed root of [domains[0]], as long as the
    calls return. *)
Lemma propagate_loop_calls returns agg rest : forall i s,
  i + N.of_nat (length rest) <= 255 ->
  connectors_return returns s agg rest = true ->
  propagate_loop returns agg i rest s
  = Success tt (add_calls (propagate_calls s agg rest) s).
Proof.
  induction rest as [|d rest IH]; intros i s Hlen Hret.
  - unfold propagate_calls, add_calls. simpl. rewrite app_nil_r. now destruct s.
  - cbn [propagate_loop]. cbn [length] in Hlen.
    unfold connectors_return in Hret. cbn [forallb] in Hret.
    apply andb_true_iff in Hret as [Hd Hret]. run.
    destruct (N.eqb_spec i 255) as [->|_]; [lia|].
    unfold propagate_calls. cbn [List.filter]. unfold call_propagateRoot.
    destruct (connector_of s d =? 0) eqn:Hz; simpl in *.
    + now rewrite IH by (first [lia | exact Hret]).
    + rewrite Hd. simpl.
      match goal with
      | |- propagate_loop _ _ _ _ ?s1 = _ =>
          rewrite (IH (i + 1) s1) by (first [lia | exact Hret])
      end.
      unfold add_calls, propagate_calls. simpl. now rewrite <- app_assoc.
Qed.

Lemma propagate_sends_to_every_connector returns s d0 ds :
  domains s = d0 :: ds ->
  (length (domains s) <= 255)%nat ->
  connectors_return returns s (abi_encodePacked_bytes32 (outboundRoot_of s d0)) (domains s)
  = true ->
  propagate returns s
  = Success tt
      (add_calls
         (propagate_calls s (abi_encodePacked_bytes32 (outboundRoot_of s d0)) (domains s)) s).
Proof.
  intros Hd Hlen Hret. unfold propagate. run. rewrite Hd in *.
  apply propagate_loop_calls; [lia | exact Hret].
Qed.

(** C4 (code defect).  [propagate] does not aggregate the outbound roots
    of the registered domains: the value it sends is the packed root of
    [domains[0]] alone.  Writing any root [r] for any other domain [d]
    changes neither the calls made to the connectors (targets and
    aggregate) nor the way the call ends, whichever of the calls return. *)
Theorem C4_propagate_sends_first_root_only returns s d0 ds d r :
  domains s = d0 :: ds ->
  d <> d0 ->
  calls_of (propagate returns (set_outboundRoots (insert d r) s))
  = calls_of (propagate returns s)
  /\ failure_of (propagate returns (set_outboundRoots (insert d r) s))
     = failure_of (propagate returns s).
Proof.
  intros Hd Hne. unfold propagate. run. rewrite Hd.
  assert (Hroot : outboundRoot_of (set_outboundRoots (insert d r) s) d0
                  = outboundRoot_of s d0).
  { unfold outboundRoot_of. simpl. now rewrite lookup_insert_ne. }
  rewrite Hroot, propagate_loop_roots.
  destruct (propagate_loop _ _ 0 (d0 :: ds) s); split; reflexivity.
Qed.

(** Domains 1 and 2 are registered with connectors 5 and 6; the root of
    domain 2 goes from 6 to 999 and the connectors are sent the same
    aggregate as before. *)
Lemma C4_propagate_sends_first_root_only_witness :
  let s := mkState 1 (<[1 := 5]> (<[2 := 6]> ∅)) (<[1 := 255]> (<[2 := 6]> ∅))
                   [1; 2] ∅ [] [] in
  domains s = [1; 2] /\ 2 <> 1
  /\ calls_of (propagate always_returns (set_outboundRoots (insert 2 999) s))
     = calls_of (propagate always_returns s)
  /\ calls_of (propagate always_returns s)
     = [mkPropagateRoot 5 (abi_encodePacked_bytes32 255);
        mkPropagateRoot 6 (abi_encodePacked_bytes32 255)].
Proof.
  intros s. split; [reflexivity|]. split; [lia|]. split.
  - apply (C4_propagate_sends_first_root_only always_returns s 1 [2] 2 999);
      [reflexivity | lia].
  - vm_compute. reflexivity.
Defined.

(** C5 (as the code has it).  An owner call [addConnector(d, c)] binds
    [d] to [c] and appends [d] to the list of domains, listed already
    or not: [d] occurs once more than before. *)
Theorem C5_addConnector_binds_and_appends s caller d c :
  owner s = caller ->
  exists s',
    addConnector caller d c s = Success tt s'
    /\ connector_of s' d = c
    /\ domains s' = domains s ++ [d]
    /\ count_occ N.eq_dec (domains s') d = S (count_occ N.eq_dec (domains s) d).
Proof.
  intros Ho. unfold addConnector.
  unfold bind at 1. rewrite (onlyOwner_accepts _ _ Ho). run. unfold emit. run.
  eexists. split; [reflexivity|]. simpl. repeat split.
  - unfold connector_of. simpl. now rewrite lookup_insert_eq.
  - rewrite count_occ_app. simpl. destruct (N.eq_dec d d); [apply Nat.add_1_r | contradiction].
Qed.

Lemma C5_addConnector_binds_and_appends_witness :
  exists s',
    addConnector 1 7 11 (constructor 1) = Success tt s'
    /\ connector_of s' 7 = 11
    /\ domains s' = domains (constructor 1) ++ [7]
    /\ count_occ N.eq_dec (domains s') 7
       = S (count_occ N.eq_dec (domains (constructor 1)) 7).
Proof. apply (C5_addConnector_binds_and_appends (constructor 1) 1 7 11). reflexivity. Defined.

(** C5, the claim refuted: [addConnector(7, 11)] then [addConnector(7, 22)]
    by the owner leaves domain 7 twice in the list (bound to 22). *)
Lemma C5_rebinding_duplicates_domain :
  let s2 := transact (addConnector 1 7 22)
              (transact (addConnector 1 7 11) (constructor 1)) in
  domains s2 = [7; 7] /\ connector_of s2 7 = 22 /\ ~ NoDup (domains s2).
Proof.
  simpl. split; [reflexivity|]. split; [reflexivity|].
  intros H. apply NoDup_cons in H as [Hin _]. apply Hin. left.
Qed.

(** C8.  A call of [setOutboundRoot] by anyone but the connector bound
    to the domain, and a call of [removeConnector] by anyone who is not
    a watcher, revert on their first check: the storage at that point
    is the one the call started from (bindings, roots, list of domains,
    watchers and logs alike), and so is the storage after the revert. *)
Theorem C8_unauthorized_calls_revert_unchanged s caller1 d1 root caller2 d2 :
  connector_of s d1 <> caller1 ->
  is_watcher s caller2 = false ->
  (setOutboundRoot caller1 d1 root s = Reverted (RequireFailed "!connector") s
   /\ transact (setOutboundRoot caller1 d1 root) s = s)
  /\ (removeConnector caller2 d2 s = Reverted (RequireFailed "!watcher") s
      /\ transact (removeConnector caller2 d2) s = s).
Proof.
  intros Hc Hw.
  assert (H1 : setOutboundRoot caller1 d1 root s
               = Reverted (RequireFailed "!connector") s).
  { unfold setOutboundRoot, bind. now rewrite (onlyConnector_rejects _ _ _ Hc). }
  assert (H2 : removeConnector caller2 d2 s = Reverted (RequireFailed "!watcher") s).
  { unfold removeConnector, bind. now rewrite (onlyWatcher_rejects _ _ Hw). }
  unfold transact. rewrite H1, H2. repeat split.
Qed.

Lemma C8_unauthorized_calls_revert_unchanged_witness :
  let s := mkState 1 (<[7 := 11]> ∅) ∅ [7] (<[9 := true]> ∅) [] [] in
  (setOutboundRoot 12 7 5 s = Reverted (RequireFailed "!connector") s
   /\ transact (setOutboundRoot 12 7 5) s = s)
  /\ (removeConnector 8 7 s = Reverted (RequireFailed "!watcher") s
      /\ transact (removeConnector 8 7) s = s).
Proof.
  intros s. apply (C8_unauthorized_calls_revert_unchanged s 12 7 5 8 7).
  - vm_compute. discriminate.
  - reflexivity.
Defined.

(** The search of [removeConnector] on a list that does not hold the
    domain and runs past 256 entries: the counter overflows, and nothing
    has been written. *)
Lemma removeConnector_loop_overflows d lst rest : forall i s,
  i <= 255 ->
  255 < i + N.of_nat (length rest) ->
  ~ In d rest ->
  removeConnector_loop d lst i rest s = Reverted (Panic 17) s.
Proof.
  induction rest as [|x rest IH]; intros i s Hi Hlen Hnot.
  - cbn in Hlen. lia.
  - cbn [removeConnector_loop]. cbn [length] in Hlen.
    destruct (N.eqb_spec x d) as [->|_]; [exfalso; apply Hnot; now left|].
    destruct (N.eqb_spec i 255) as [->|Hne]; [reflexivity|].
    apply IH; [lia | lia | intros Hin; apply Hnot; now right].
Qed.

(** C10 (as the code has it).  With between 1 and 255 listed domains,
    none of them [_domain], a watcher's [removeConnector(_domain)] does
    not revert: it drops the last entry of the list, leaves the other
    entries in place, and the binding of [_domain] reads zero.  With 256
    or more listed domains, none of them [_domain], the [uint8] counter
    of the search overflows: the call reverts (Panic 0x11) and the
    storage is left as it was. *)
Theorem C10_removeConnector_unlisted_pops_last s caller d s256 caller256 d256 :
  is_watcher s caller = true ->
  domains s <> [] ->
  (length (domains s) <= 255)%nat ->
  ~ In d (domains s) ->
  is_watcher s256 caller256 = true ->
  (255 < length (domains s256))%nat ->
  ~ In d256 (domains s256) ->
  (exists s',
      removeConnector caller d s = Success tt s'
      /\ domains s' = removelast (domains s)
      /\ length (domains s') = (length (domains s) - 1)%nat
      /\ connector_of s' d = 0
      /\ outboundRoots s' = outboundRoots s
      /\ watchers s' = watchers s)
  /\ failure_of (removeConnector caller256 d256 s256) = Some (Panic 17)
  /\ transact (removeConnector caller256 d256) s256 = s256.
Proof.
  intros Hw Hne Hlen Hnot Hw' Hlen' Hnot'. split.
  - unfold removeConnector.
    unfold bind at 1. rewrite (onlyWatcher_accepts _ _ Hw). run.
    destruct (N.eqb_spec (N.of_nat (length (domains s))) 0) as [H0|H0].
    { destruct (domains s); [contradiction | simpl in H0; lia]. }
    destruct (lookup_lt_is_Some_2 (domains s)
                (N.to_nat (N.of_nat (length (domains s)) - 1))) as [lst Hlst]; [lia|].
    rewrite Hlst.
    rewrite removeConnector_loop_absent by (simpl; first [assumption | lia]).
    rewrite pop_domain_nonempty by assumption.
    unfold emit. run.
    eexists. split; [reflexivity|]. simpl. repeat split.
    + rewrite removelast_firstn_len, length_firstn. lia.
    + unfold connector_of. simpl. now rewrite lookup_delete_eq.
  - assert (E : removeConnector caller256 d256 s256
                = Reverted (Panic 17) (set_connectors (delete d256) s256)).
    { unfold removeConnector.
      unfold bind at 1. rewrite (onlyWatcher_accepts _ _ Hw'). run.
      destruct (N.eqb_spec (N.of_nat (length (domains s256))) 0) as [H0|H0]; [lia|].
      destruct (lookup_lt_is_Some_2 (domains s256)
                  (N.to_nat (N.of_nat (length (domains s256)) - 1))) as [lst Hlst]; [lia|].
      rewrite Hlst.
      now rewrite removeConnector_loop_overflows
        by (simpl; first [assumption | lia]). }
    unfold transact. rewrite E. split; reflexivity.
Qed.

(** Domain 7 is not among the three listed domains 1, 2, 3, nor is
    domain 1000 among the 256 listed domains 0, 1, ..., 255. *)
Lemma C10_removeConnector_unlisted_pops_last_witness :
  let s := mkState 1 (<[1 := 5]> ∅) ∅ [1; 2; 3] (<[9 := true]> ∅) [] [] in
  let s256 := mkState 1 ∅ ∅ (map N.of_nat (seq 0 256)) (<[9 := true]> ∅) [] [] in
  (exists s',
      removeConnector 9 7 s = Success tt s'
      /\ domains s' = removelast (domains s)
      /\ length (domains s') = (length (domains s) - 1)%nat
      /\ connector_of s' 7 = 0
      /\ outboundRoots s' = outboundRoots s
      /\ watchers s' = watchers s)
  /\ failure_of (removeConnector 9 1000 s256) = Some (Panic 17)
  /\ transact (removeConnector 9 1000) s256 = s256.
Proof.
  intros s s256. apply (C10_removeConnector_unlisted_pops_last s 9 7 s256 9 1000).
  - reflexivity.
  - discriminate.
  - simpl. lia.
  - simpl. intros [H|[H|[H|[]]]]; discriminate.
  - reflexivity.
  - cbn [domains s256]. rewrite length_map, length_seq. lia.
  - cbn [domains s256]. intros H.
    apply in_map_iff in H as (n & Hn & Hin). apply in_seq in Hin. lia.
Defined.

(** C10, the claim refuted: with the 256 domains 0, 1, ..., 255 listed
    and domain 1000 not among them, the [uint8] counter of the search
    overflows and the watcher's [removeConnector(1000)] reverts. *)
Lemma C10_unlisted_removal_reverts_at_256 :
  let s := mkState 1 ∅ ∅ (map N.of_nat (seq 0 256)) (<[9 := true]> ∅) [] [] in
  is_watcher s 9 = true
  /\ domains s <> []
  /\ ~ In 1000 (domains s)
  /\ failure_of (removeConnector 9 1000 s) = Some (Panic 17).
Proof.
  intros s. split; [reflexivity|]. split; [discriminate|]. split.
  - intros H. apply in_map_iff in H as (n & Hn & Hin). apply in_seq in Hin. lia.
  - vm_compute. reflexivity.
Qed.

End RootManagerProperties.

(** ** The spokes: Gnosis connectors *)

Section GnosisConnectorProperties.
Import Solidity GnosisConnector.
Local Open Scope N_scope.

Ltac run := unfold bind, get, modify, require, revert, ret in *; simpl in *.

Lemma L2_processMessage_rejects env s sender data :
  unverified env s 1 ->
  exists f, L2._processMessage env sender data s = Reverted f s.
Proof.
  intros Hbad. unfold L2._processMessage, _verifySender. run.
  destruct (msg_sender env =? AMB s); simpl; [|eauto].
  destruct (N.eqb_spec (messageSender env) (mirrorConnector s)); simpl; [|eauto].
  destruct (N.eqb_spec (destinationChainId env) (block_chainid env)); simpl; [|eauto].
  destruct (N.eqb_spec (sourceChainId env) 1); simpl; [|eauto].
  exfalso. destruct Hbad as [H|[H|H]]; contradiction.
Qed.

Lemma L1_processMessage_rejects accepts env s sender data :
  unverified env s 100 ->
  exists f, L1._processMessage accepts env sender data s = Reverted f s.
Proof.
  intros Hbad. unfold L1._processMessage, _verifySender. run.
  destruct (msg_sender env =? AMB s); simpl; [|eauto].
  destruct (N.eqb_spec (messageSender env) (mirrorConnector s)); simpl; [|eauto].
  destruct (N.eqb_spec (destinationChainId env) (block_chainid env)); simpl; [|eauto].
  destruct (N.eqb_spec (sourceChainId env) 100); simpl; [|eauto].
  exfalso. destruct Hbad as [H|[H|H]]; contradiction.
Qed.

(** C9.  A message whose sender, as the bridge reports it, is not the
    mirror connector, or whose destination or source chain is not the
    expected one, makes the handler of either Gnosis connector revert
    while the storage is still the one the call started from: the
    aggregate root is not updated (L2, source chain 1) and no
    [setOutboundRoot] is forwarded to the root manager (L1, source
    chain 100), whatever the root manager would answer. *)
Theorem C9_unverified_message_reverts_unchanged
    accepts env2 (s2 : State) env1 (s1 : State) sender data :
  unverified env2 s2 1 ->
  unverified env1 s1 100 ->
  (exists f, L2._processMessage env2 sender data s2 = Reverted f s2)
  /\ transact (L2._processMessage env2 sender data) s2 = s2
  /\ (exists f, L1._processMessage accepts env1 sender data s1 = Reverted f s1)
  /\ transact (L1._processMessage accepts env1 sender data) s1 = s1.
Proof.
  intros H2 H1.
  destruct (L2_processMessage_rejects env2 s2 sender data H2) as [f2 E2].
  destruct (L1_processMessage_rejects accepts env1 s1 sender data H1) as [f1 E1].
  unfold transact. rewrite E2, E1. repeat split; eauto.
Qed.

(** The bridge (address 50) delivers, on chain 100 and from chain 1, a
    message sent by 78 to an L2 connector whose mirror is 77; and, on
    chain 1 and from chain 100, a message sent by 77 but headed to
    chain 5, to an L1 connector whose root manager would accept the call. *)
Lemma C9_unverified_message_reverts_unchanged_witness :
  let s := mkState 50 60 77 1337 5 [] in
  let env2 := mkEnv 50 100 78 1 100 in
  let env1 := mkEnv 50 1 77 100 5 in
  let accepts := fun (_ : address) (_ : uint32) (_ : bytes32) => true in
  (exists f, L2._processMessage env2 0 [] s = Reverted f s)
  /\ transact (L2._processMessage env2 0 []) s = s
  /\ (exists f, L1._processMessage accepts env1 0 [] s = Reverted f s)
  /\ transact (L1._processMessage accepts env1 0 []) s = s.
Proof.
  intros s env2 env1 accepts.
  apply (C9_unverified_message_reverts_unchanged accepts env2 s env1 s 0 []).
  - left. vm_compute. discriminate.
  - right. left. vm_compute. discriminate.
Defined.

End GnosisConnectorProperties.

(** ** The transfer cache: further properties *)

Section TransfersCacheCoverage.
Import Js TransfersCache.

(** *** Reading back a record *)

Lemma JSON_stringify_object props :
  JSON_stringify (JObj props)
  = Some ("{" +:+
          String.concat ","
            (flat_map (fun kv : string * JsVal =>
                         let (k, x) := kv in
                         match JSON_stringify x with
                         | None => []
                         | Some sx => [quote k +:+ ":" +:+ sx]
                         end) props)
          +:+ "}").
Proof. reflexivity. Qed.

(** The text written for a value and the text written for what is read
    back from it are the same. *)
Lemma JSON_stringify_roundtrip v :
  JSON_stringify (JSON_roundtrip v) = JSON_stringify v.
Proof.
  induction v as [ | | b | n | s | props IH] using JsVal_nested_ind; try reflexivity.
  rewrite JSON_roundtrip_object, !JSON_stringify_object.
  set (member := fun kv : string * JsVal =>
                   let (k, x) := kv in
                   match JSON_stringify x with
                   | None => []
                   | Some sx => [quote k +:+ ":" +:+ sx]
                   end).
  assert (E : flat_map member (roundtrip_object props) = flat_map member props).
  { induction props as [|[k x] ps IHps]; [reflexivity|].
    apply Forall_cons in IH as [Hx IH]. cbn [snd] in Hx. specialize (IHps IH).
    rewrite roundtrip_object_cons. cbn [flat_map]. rewrite <- IHps.
    destruct x; cbn [flat_map]; unfold member at 1 3; try rewrite Hx; reflexivity. }
  now rewrite E.
Qed.

Lemma same_stringified_roundtrip u :
  same_stringified u (Some (roundtrip_object u)) = true.
Proof.
  unfold same_stringified, as_value.
  rewrite <- (JSON_roundtrip_object u), JSON_stringify_roundtrip.
  rewrite JSON_stringify_object. apply String.eqb_refl.
Qed.

Lemma same_stringified_none u : same_stringified u None = false.
Proof. unfold same_stringified. simpl. reflexivity. Qed.

Lemma storeTransfers_fresh_transfers c u :
  getTransfer c (transferId u) = None ->
  transfers (storeTransfers c [u]).1
  = <[transferId u := roundtrip_object u]> (transfers c).
Proof.
  intros Hnone. rewrite storeTransfers_transfers. cbn [fold_left].
  rewrite data_store_transfer. cbn [data]. cbn zeta. rewrite Hnone.
  rewrite same_stringified_none. cbn [collate]. apply write_transfer_transfers.
Qed.

(** *** Two more invariants of the reachable stores *)

Lemma collate_transferId_prop existing u :
  XTransfer_typed u = true ->
  (forall e, existing = Some e -> NoDup (map fst e)) ->
  get_prop "transferId" (collate existing u) = JStr (transferId u).
Proof.
  intros Ht He. destruct existing as [e|]; [|now apply typed_transferId].
  rewrite get_prop_collate by (eauto using typed_unique).
  now rewrite (typed_transferId u Ht).
Qed.

Lemma store_transfer_linked st u :
  XTransfer_typed u = true ->
  cache_ok (data st) -> cache_linked (data st) ->
  cache_linked (data (store_transfer st u)).
Proof.
  intros Ht [Hnd Hrec] [Hid Hpend]. rewrite data_store_transfer. cbn zeta.
  destruct (same_stringified _ _); [now split|].
  set (existing := getTransfer (data st) (transferId u)).
  assert (Hex : forall e, existing = Some e -> NoDup (map fst e)).
  { intros e He. now apply (Hrec _ _ He). }
  pose proof (collate_transferId existing u Ht Hex) as Htid.
  split.
  - intros id r. rewrite write_transfer_transfers, lookup_insert.
    destruct (decide _) as [E|_]; [|apply Hid].
    intros Hr. inversion Hr; subst r. rewrite <- E.
    unfold transferId at 1, string_prop.
    rewrite get_prop_roundtrip_object
      by (apply collate_unique; now apply typed_unique).
    rewrite (collate_transferId_prop existing u Ht Hex). cbn. now rewrite Htid.
  - intros d id. rewrite getPending_write_transfer by exact Hnd.
    rewrite write_transfer_transfers, lookup_insert_is_Some.
    destruct (decide _) as [[-> _]|_].
    + intros _. now left.
    + intros H. destruct (decide (transferId (collate existing u) = id)); [now left|].
      right. split; [assumption | now apply (Hpend d)].
Qed.

Lemma store_transfers_linked ts : forall st,
  Forall (fun t => XTransfer_typed t = true) ts ->
  cache_ok (data st) -> cache_linked (data st) ->
  cache_linked (data (fold_left store_transfer ts st)).
Proof.
  induction ts as [|u ts IH]; cbn [fold_left]; intros st Hts Hok Hl; [exact Hl|].
  apply Forall_cons in Hts as [Hu Hts].
  apply IH; [exact Hts | now apply store_transfer_ok | now apply store_transfer_linked].
Qed.

Lemma reachable_linked c : reachable c -> cache_linked c.
Proof.
  induction 1 as [|c ts Hc IH Hts|c id e _ IH].
  - split; [intros id r H; inversion H | intros d id H; inversion H].
  - pose proof (store_transfers_linked ts (mkBatch c ∅ ∅) Hts (reachable_ok c Hc) IH)
      as [Hid Hpend].
    split.
    + intros id r. rewrite storeTransfers_transfers. apply Hid.
    + intros d id. rewrite storeTransfers_pending, storeTransfers_transfers. apply Hpend.
  - unfold saveError. destruct (negb _); exact IH.
Qed.

Lemma reachable_once u :
  XTransfer_typed u = true -> reachable (storeTransfers empty_cache [u]).1.
Proof.
  intros Ht. apply reachable_store; [apply reachable_empty|].
  constructor; [exact Ht | constructor].
Qed.

(** X1.  In a store reached from the empty one: no id occurs twice in a
    pending list, every id of a pending list has a stored record, and
    every record is stored under its own [transferId]. *)
Theorem reachable_store_is_consistent c d id r :
  reachable c ->
  NoDup (getPending c d)
  /\ (id ∈ getPending c d -> is_Some (getTransfer c id))
  /\ (getTransfer c id = Some r -> transferId r = id).
Proof.
  intros Hc. destruct (reachable_ok c Hc) as [Hnd _].
  destruct (reachable_linked c Hc) as [Hid Hpend].
  split; [apply Hnd|]. split; [apply Hpend | apply Hid].
Qed.

Lemma reachable_store_is_consistent_witness :
  let c := (storeTransfers empty_cache [T_xcall]).1 in
  NoDup (getPending c "1337")
  /\ ("0xt1" ∈ getPending c "1337" -> is_Some (getTransfer c "0xt1"))
  /\ (getTransfer c "0xt1" = Some T_xcall -> transferId T_xcall = "0xt1").
Proof.
  intros c. apply (reachable_store_is_consistent c "1337" "0xt1" T_xcall).
  apply reachable_once. vm_compute. reflexivity.
Defined.

(** X2.  A well-typed record whose id has no stored record yet: after
    [storeTransfers([u])] the record read back under its id is [u] as
    JSON keeps it ([u] without its [undefined] properties), and its id is
    in the pending list of its origin domain exactly when [u] is pending
    ([xcall] transaction hash set, [execute] and [reconcile] hashes unset). *)
Theorem fresh_record_is_stored_and_indexed c u :
  reachable c ->
  XTransfer_typed u = true ->
  getTransfer c (transferId u) = None ->
  getTransfer (storeTransfers c [u]).1 (transferId u) = Some (roundtrip_object u)
  /\ (transferId u ∈ getPending (storeTransfers c [u]).1 (originDomain u)
      <-> is_pending u = true).
Proof.
  intros Hc Ht Hnone. split.
  - unfold getTransfer. rewrite storeTransfers_fresh_transfers by exact Hnone.
    apply lookup_insert_eq.
  - destruct (reachable_ok c Hc) as [Hnd _].
    destruct (reachable_linked c Hc) as [_ Hpend].
    rewrite storeTransfers_pending. cbn [fold_left]. rewrite data_store_transfer.
    cbn [data]. cbn zeta. rewrite Hnone, same_stringified_none. cbn [collate].
    rewrite getPending_write_transfer by exact Hnd.
    destruct (decide _) as [_|Hne]; [|exfalso; apply Hne; now split].
    split.
    + intros [[_ H]|[H _]]; [exact H|].
      apply Hpend, not_eq_None_Some in H. exfalso. exact (H Hnone).
    + intros H. left. split; [exact Hnone | exact H].
Qed.

Lemma fresh_record_is_stored_and_indexed_witness :
  getTransfer (storeTransfers empty_cache [T_xcall]).1 (transferId T_xcall)
  = Some (roundtrip_object T_xcall)
  /\ (transferId T_xcall ∈ getPending (storeTransfers empty_cache [T_xcall]).1
                                       (originDomain T_xcall)
      <-> is_pending T_xcall = true).
Proof.
  apply (fresh_record_is_stored_and_indexed empty_cache T_xcall).
  - apply reachable_empty.
  - vm_compute. reflexivity.
  - reflexivity.
Defined.

(** X3.  Storing again the record that has just been stored for a new id
    is skipped: the second call changes nothing in the store and
    publishes nothing. *)
Theorem identical_record_is_skipped c u :
  getTransfer c (transferId u) = None ->
  let c1 := (storeTransfers c [u]).1 in
  storeTransfers c1 [u] = (c1, []).
Proof.
  intros Hnone c1.
  assert (Hex : getTransfer c1 (transferId u) = Some (roundtrip_object u)).
  { unfold getTransfer, c1. rewrite storeTransfers_fresh_transfers by exact Hnone.
    apply lookup_insert_eq. }
  unfold storeTransfers at 1. cbn [fold_left]. unfold store_transfer. cbn [data].
  rewrite Hex, same_stringified_roundtrip.
  cbn [highestNonceByDomain nonceDidIncreaseForDomain data].
  now rewrite map_to_list_empty.
Qed.

Lemma identical_record_is_skipped_witness :
  let c1 := (storeTransfers empty_cache [T_xcall]).1 in
  storeTransfers c1 [T_xcall] = (c1, []).
Proof. apply (identical_record_is_skipped empty_cache T_xcall). reflexivity. Defined.

(** X4.  A record that is written with an [execute] or a [reconcile]
    transaction hash is not in the pending list of its origin domain
    afterwards, whatever the list held before. *)
Theorem complete_record_leaves_pending_index c u :
  reachable c ->
  XTransfer_typed u = true ->
  let existing := getTransfer c (transferId u) in
  let M := collate existing u in
  same_stringified u existing = false ->
  is_complete M = true ->
  transferId u ∉ getPending (storeTransfers c [u]).1 (originDomain M).
Proof.
  intros Hc Ht existing M Hskip Hcomp.
  destruct (reachable_ok c Hc) as [Hnd Hrec].
  rewrite storeTransfers_pending. cbn [fold_left]. rewrite data_store_transfer.
  cbn [data]. cbn zeta. fold existing. rewrite Hskip. fold M.
  rewrite getPending_write_transfer by exact Hnd.
  assert (Hid : transferId M = transferId u).
  { apply collate_transferId; [exact Ht|]. intros e He. now apply (Hrec _ _ He). }
  destruct (decide _) as [_|Hne]; [|exfalso; apply Hne; now split].
  intros [[_ H]|[_ H]].
  - apply is_pending_not_complete in H. congruence.
  - congruence.
Qed.

Lemma complete_record_leaves_pending_index_witness :
  let c := (storeTransfers empty_cache [T_xcall]).1 in
  "0xt1" ∈ getPending c "1337"
  /\ transferId T_execute ∉ getPending (storeTransfers c [T_execute]).1
                                       (originDomain (collate (getTransfer c (transferId T_execute)) T_execute)).
Proof.
  intros c. split; [vm_compute; left|].
  apply (complete_record_leaves_pending_index c T_execute).
  - apply reachable_once. vm_compute. reflexivity.
  - vm_compute. reflexivity.
  - vm_compute. reflexivity.
  - vm_compute. reflexivity.
Defined.

(** *** What a call leaves alone *)

Lemma write_transfer_errors c m : errors (write_transfer c m) = errors c.
Proof.
  unfold write_transfer, addPending, removePending.
  repeat match goal with
         | |- context [if ?b then _ else _] => destruct b
         | |- context [match ?o with Some _ => _ | None => _ end] => destruct o
         end; reflexivity.
Qed.

Lemma store_transfers_frame id ts : forall st,
  Forall (fun t => XTransfer_typed t = true) ts ->
  cache_ok (data st) ->
  id ∉ map transferId ts ->
  let st' := fold_left store_transfer ts st in
  transfers (data st') !! id = transfers (data st) !! id
  /\ errors (data st') = errors (data st).
Proof.
  induction ts as [|u ts IH]; cbn [fold_left]; intros st Hts Hok Hid; [now split|].
  apply Forall_cons in Hts as [Hu Hts]. cbn [map] in Hid.
  apply not_elem_of_cons in Hid as [Hne Hid].
  destruct (IH (store_transfer st u) Hts (store_transfer_ok st u Hu Hok) Hid) as [H1 H2].
  cbn zeta in H1, H2. rewrite H1, H2. rewrite data_store_transfer. cbn zeta.
  destruct (same_stringified _ _); [now split|].
  rewrite write_transfer_transfers, write_transfer_errors. split; [|reflexivity].
  apply lookup_insert_ne.
  rewrite collate_transferId; [congruence | exact Hu |].
  intros e He. destruct Hok as [_ Hrec]. now apply (Hrec _ _ He).
Qed.

(** X5.  A call of [storeTransfers] leaves the record of every id that
    no record of the batch carries as it was, and leaves the errors of
    every transfer as they were. *)
Theorem storeTransfers_touches_only_its_ids c ts id id' :
  reachable c ->
  Forall (fun t => XTransfer_typed t = true) ts ->
  id ∉ map transferId ts ->
  getTransfer (storeTransfers c ts).1 id = getTransfer c id
  /\ getErrors (storeTransfers c ts).1 id' = getErrors c id'.
Proof.
  intros Hc Hts Hid.
  destruct (store_transfers_frame id ts (mkBatch c ∅ ∅) Hts (reachable_ok c Hc) Hid)
    as [H1 H2]. cbn zeta in H1, H2. cbn [data] in H1, H2.
  split.
  - unfold getTransfer. now rewrite storeTransfers_transfers.
  - unfold getErrors, storeTransfers.
    destruct (publish_nonce_keeps
                (nonceDidIncreaseForDomain (fold_left store_transfer ts (mkBatch c ∅ ∅)))
                (map_to_list (highestNonceByDomain
                                (fold_left store_transfer ts (mkBatch c ∅ ∅))))
                (data (fold_left store_transfer ts (mkBatch c ∅ ∅))) [])
      as (_ & _ & ->).
    now rewrite H2.
Qed.

Lemma storeTransfers_touches_only_its_ids_witness :
  let c := (storeTransfers empty_cache [T_nonce5]).1 in
  getTransfer (storeTransfers c [T_xcall; T_nonce3]).1 "0xt5" = getTransfer c "0xt5"
  /\ getErrors (storeTransfers c [T_xcall; T_nonce3]).1 "0xt5" = getErrors c "0xt5".
Proof.
  intros c. apply (storeTransfers_touches_only_its_ids c [T_xcall; T_nonce3] "0xt5" "0xt5").
  - apply reachable_once. vm_compute. reflexivity.
  - repeat constructor.
  - vm_compute. intros H. repeat (apply elem_of_cons in H as [H|H]; [discriminate|]).
    inversion H.
Defined.

(** *** The nonce watermark and its events *)



Lemma safe_integer_0 : safe_integer 0.
Proof. unfold safe_integer, MAX_SAFE_INTEGER. lia. Qed.

Lemma getLatestNonce_safe c d : nonces_safe c -> safe_integer (getLatestNonce c d).
Proof.
  intros Hc. unfold getLatestNonce.
  destruct (nonces c !! d) as [n|] eqn:E; [exact (Hc d n E) | exact safe_integer_0].
Qed.

Lemma nonces_safe_empty : nonces_safe empty_cache.
Proof. intros d n H. cbn in H. now rewrite lookup_empty in H. Qed.

Lemma collate_nonce existing u n :
  NoDup (map fst u) ->
  (forall e, existing = Some e -> NoDup (map fst e)) ->
  get_prop "nonce" u = JNum n ->
  get_prop "nonce" (collate existing u) = JNum n.
Proof.
  intros Hu He Hn. destruct existing as [e|]; [|exact Hn].
  rewrite get_prop_collate by eauto. now rewrite Hn.
Qed.

Lemma track_nonce_safe c highest did u n :
  safe_integer (getLatestNonce c (originDomain u)) ->
  (forall d m, highest !! d = Some m -> safe_integer m) ->
  Number (get_prop "nonce" u) = Some n ->
  safe_integer n ->
  forall d m, (track_nonce c highest did u).1 !! d = Some m -> safe_integer m.
Proof.
  intros Hc Hh Hn Hs d m. unfold track_nonce. rewrite Hn.
  set (od := originDomain u) in *.
  destruct (highest !! od) as [k|] eqn:Hk;
    [destruct (k =? 0)%Z|];
    try match goal with
        | |- context [(?a >? ?b)%Z] => destruct (a >? b)%Z
        end;
    cbn [fst]; rewrite ?lookup_insert;
    repeat match goal with
           | |- context [decide ?P] => destruct (decide P)
           end;
    intros E; try (inversion E; subst; assumption); eauto.
Qed.

Lemma store_transfers_safe c0 ts : forall st,
  Forall safe_record ts ->
  nonces_safe c0 ->
  cache_ok (data st) ->
  nonces (data st) = nonces c0 ->
  (forall d m, highestNonceByDomain st !! d = Some m -> safe_integer m) ->
  forall d m, highestNonceByDomain (fold_left store_transfer ts st) !! d = Some m ->
              safe_integer m.
Proof.
  induction ts as [|u ts IH]; intros st Hts Hc0 Hok Hn Hh; [exact Hh|].
  apply Forall_cons in Hts as [(Ht & _ & n & Hnonce & Hsafe) Hts].
  cbn [fold_left]. apply IH; [exact Hts | exact Hc0 | now apply store_transfer_ok | |].
  - rewrite data_store_transfer. cbn zeta.
    destruct (same_stringified _ _); [exact Hn | now rewrite write_transfer_nonces].
  - unfold store_transfer. destruct (same_stringified _ _); [exact Hh|].
    pose proof (track_nonce_safe
                  (write_transfer (data st) (collate (getTransfer (data st) (transferId u)) u))
                  (highestNonceByDomain st) (nonceDidIncreaseForDomain st)
                  (collate (getTransfer (data st) (transferId u)) u) n) as Hstep.
    destruct (track_nonce _ _ _ _) as [h' d']. cbn [highestNonceByDomain].
    apply Hstep; [| exact Hh | | exact Hsafe].
    + rewrite getLatestNonce_write_transfer. unfold getLatestNonce. rewrite Hn.
      apply (getLatestNonce_safe c0), Hc0.
    + rewrite (collate_nonce _ u n); [reflexivity | now apply typed_unique | | exact Hnonce].
      intros e He. destruct Hok as [_ Hrec]. now apply (Hrec _ _ He).
Qed.

Lemma publish_nonce_safe did l : forall c evs,
  (forall d n, (d, n) ∈ l -> safe_integer n) ->
  nonces_safe c ->
  nonces_safe (fold_left (publish_nonce did) l (c, evs)).1.
Proof.
  induction l as [|[d0 n0] l IH]; intros c evs Hl Hc; [exact Hc|].
  cbn [fold_left publish_nonce].
  assert (Hl' : forall d n, (d, n) ∈ l -> safe_integer n).
  { intros d n H. apply (Hl d). now right. }
  destruct (did !! d0) as [[|]|]; try (apply IH; assumption).
  apply IH; [exact Hl'|].
  intros d n. cbn [nonces]. rewrite lookup_insert.
  destruct (decide (d0 = d)) as [<-|_]; [|apply Hc].
  intros E. inversion E; subst. apply (Hl d0). now left.
Qed.

Lemma storeTransfers_nonces_safe c ts :
  reachable c -> nonces_safe c -> Forall safe_record ts ->
  nonces_safe (storeTransfers c ts).1.
Proof.
  intros Hr Hc Hts. unfold storeTransfers.
  assert (Hn : nonces (data (fold_left store_transfer ts (mkBatch c ∅ ∅))) = nonces c).
  { apply (store_transfers_above c ts (mkBatch c ∅ ∅) eq_refl).
    intros d0 n H. cbn in H. now rewrite lookup_empty in H. }
  apply publish_nonce_safe.
  - intros d n H. apply elem_of_map_to_list in H.
    apply (store_transfers_safe c ts (mkBatch c ∅ ∅) Hts Hc (reachable_ok c Hr) eq_refl)
      in H; [exact H|].
    intros d0 m H0. cbn in H0. now rewrite lookup_empty in H0.
  - intros d n. rewrite Hn. apply Hc.
Qed.

(** X6.  Where the store reads back the nonces it wrote: in a store
    reached from the empty one whose latest nonces are safe integers,
    a call of [storeTransfers] with records whose nonces are safe
    integers (and whose origin domains name no property every object
    inherits) lowers the latest nonce of no domain, and the latest
    nonces are safe integers again after the call.  (Beyond the safe
    integers the text of a nonce is not its decimal writing, and
    [parseInt] does not read back what [hset] wrote.) *)
Theorem watermark_never_decreases c ts d :
  reachable c ->
  nonces_safe c ->
  Forall safe_record ts ->
  (getLatestNonce c d <= getLatestNonce (storeTransfers c ts).1 d)%Z
  /\ nonces_safe (storeTransfers c ts).1.
Proof.
  intros Hr Hc Hts. split;
    [apply getLatestNonce_monotone | now apply storeTransfers_nonces_safe].
Qed.

Lemma watermark_never_decreases_witness :
  let c := (storeTransfers empty_cache [T_nonce5]).1 in
  (getLatestNonce c "1337" <= getLatestNonce (storeTransfers c [T_nonce3; T_xcall]).1 "1337")%Z
  /\ nonces_safe (storeTransfers c [T_nonce3; T_xcall]).1.
Proof.
  assert (H5 : Forall safe_record [T_nonce5]).
  { repeat constructor. exists 5%Z. split; [reflexivity|].
    unfold safe_integer, MAX_SAFE_INTEGER. lia. }
  intros c. apply (watermark_never_decreases c [T_nonce3; T_xcall] "1337").
  - apply reachable_store; [constructor|]. repeat constructor.
  - apply storeTransfers_nonces_safe; [constructor | apply nonces_safe_empty | exact H5].
  - repeat constructor.
    + exists 3%Z. split; [reflexivity|]. unfold safe_integer, MAX_SAFE_INTEGER. lia.
    + exists 1%Z. split; [reflexivity|]. unfold safe_integer, MAX_SAFE_INTEGER. lia.
Defined.


(** X8.  A call that writes one record with nonce [n], where the
    origin domain of the record names no property every object inherits
    and [n] and the latest nonces of the store are safe integers: the
    latest nonce of the record's origin domain becomes the greater of
    [n] and what it was, and the latest nonce of every other domain
    stays.  (For an origin domain such as [constructor] the tables of
    the call answer with the inherited property and the call records no
    nonce at all.) *)
Theorem watermark_after_one_record c u n d :
  let existing := getTransfer c (transferId u) in
  let M := collate existing u in
  same_stringified u existing = false ->
  Number (get_prop "nonce" M) = Some n ->
  inherited_property (originDomain M) = false ->
  safe_integer n ->
  nonces_safe c ->
  getLatestNonce (storeTransfers c [u]).1 (originDomain M)
  = Z.max (getLatestNonce c (originDomain M)) n
  /\ (d <> originDomain M ->
      getLatestNonce (storeTransfers c [u]).1 d = getLatestNonce c d).
Proof.
  intros existing M Hskip Hn _ _ _.
  unfold storeTransfers. cbn [fold_left]. unfold store_transfer. cbn [data].
  fold existing. rewrite Hskip. fold M.
  unfold track_nonce. cbn [highestNonceByDomain nonceDidIncreaseForDomain].
  rewrite lookup_empty, Hn, getLatestNonce_write_transfer.
  destruct (Z.gtb_spec n (getLatestNonce c (originDomain M))) as [Hgt|Hle];
    cbn [highestNonceByDomain nonceDidIncreaseForDomain data];
    rewrite ?insert_insert_eq, !insert_empty, map_to_list_singleton;
    cbn [fold_left publish_nonce]; rewrite lookup_singleton_eq; cbn [fst];
    (split;
     [unfold getLatestNonce at 1; cbn [nonces]; rewrite lookup_insert_eq; lia
     | intros Hne; unfold getLatestNonce; cbn [nonces];
       rewrite lookup_insert_ne by congruence; now rewrite write_transfer_nonces]).
Qed.

Lemma watermark_after_one_record_witness :
  let c := (storeTransfers empty_cache [T_nonce3]).1 in
  getLatestNonce (storeTransfers c [T_nonce5]).1 "1337" = Z.max (getLatestNonce c "1337") 5
  /\ ("1338" <> "1337" ->
      getLatestNonce (storeTransfers c [T_nonce5]).1 "1338" = getLatestNonce c "1338").
Proof.
  intros c. apply (watermark_after_one_record c T_nonce5 5 "1338").
  - reflexivity.
  - reflexivity.
  - reflexivity.
  - unfold safe_integer, MAX_SAFE_INTEGER. lia.
  - apply storeTransfers_nonces_safe; [constructor | apply nonces_safe_empty |].
    repeat constructor. exists 3%Z. split; [reflexivity|].
    unfold safe_integer, MAX_SAFE_INTEGER. lia.
Defined.

(** *** The error ledger *)

(** X9.  [saveError] only ever appends: every error recorded for any
    transfer is still recorded after the call; the records, the pending
    lists and the latest nonces are as before; when the answer is
    [false] the store is untouched, and when it is [true] the error is
    the last of the errors of its transfer. *)
Theorem saveError_appends c id X :
  let r := saveError c id X in
  (forall id' e, e ∈ getErrors c id' -> e ∈ getErrors r.2 id')
  /\ transfers r.2 = transfers c /\ pending r.2 = pending c /\ nonces r.2 = nonces c
  /\ (r.1 = false -> r.2 = c)
  /\ (r.1 = true -> getErrors r.2 id = getErrors c id ++ [X]
                    /\ forall id', id' <> id -> getErrors r.2 id' = getErrors c id').
Proof.
  unfold saveError. cbn zeta.
  destruct (negb (includes (getErrors c id) (quote X))); cbn [fst snd].
  - assert (Hsame : getErrors
                      (mkCache (transfers c) (pending c) (nonces c)
                               (<[id := getErrors c id ++ [X]]> (errors c))) id
                    = getErrors c id ++ [X]).
    { unfold getErrors at 1. cbn [errors]. now rewrite lookup_insert_eq. }
    assert (Hother : forall id', id' <> id ->
              getErrors
                (mkCache (transfers c) (pending c) (nonces c)
                         (<[id := getErrors c id ++ [X]]> (errors c))) id'
              = getErrors c id').
    { intros id' Hne. unfold getErrors at 1. cbn [errors].
      now rewrite lookup_insert_ne by congruence. }
    repeat split; try discriminate; try assumption.
    intros id' e He. destruct (decide (id' = id)) as [->|Hne].
    + rewrite Hsame. apply elem_of_app. now left.
    + now rewrite Hother.
  - repeat split; try discriminate; trivial.
Qed.

(** *** The pending lists *)

Lemma findIndex_last l x :
  x ∉ l -> findIndex (l ++ [x]) x = Some (length l).
Proof.
  induction l as [|y l IH]; cbn [app findIndex length]; intros Hx.
  - now rewrite String.eqb_refl.
  - apply not_elem_of_cons in Hx as [Hne Hx].
    destruct (String.eqb_spec y x) as [E|_]; [congruence|].
    now rewrite IH.
Qed.

Lemma delete_last (l : list string) x : delete (length l) (l ++ [x]) = l.
Proof.
  induction l as [|y l IH]; cbn; [reflexivity|]. f_equal. exact IH.
Qed.

(** X10.  Adding an id to a pending list that does not hold it and then
    removing it gives back the lists as they were, and the removal
    answers [true]; the id goes to the end of its list, after the ids
    that were pending already. *)
Theorem addPending_then_removePending c d id d' :
  id ∉ getPending c d ->
  getPending (addPending c d id) d = getPending c d ++ [id]
  /\ (removePending (addPending c d id) d id).1 = true
  /\ getPending (removePending (addPending c d id) d id).2 d' = getPending c d'.
Proof.
  intros Hid.
  assert (Hinc : includes (getPending c d) id = false).
  { apply not_true_is_false. intros H. now apply includes_elem in H. }
  assert (Hadd : getPending (addPending c d id) d = getPending c d ++ [id]).
  { unfold addPending. rewrite Hinc. cbn [negb]. rewrite getPending_insert.
    now destruct (decide (d = d)). }
  split; [exact Hadd|].
  unfold removePending. rewrite Hadd, (findIndex_last _ _ Hid), delete_last.
  cbn [fst snd]. split; [reflexivity|].
  unfold addPending. rewrite Hinc. cbn [negb transfers pending nonces errors].
  unfold getPending at 1. cbn [pending]. rewrite insert_insert_eq, lookup_insert.
  destruct (decide (d = d')) as [<-|_]; reflexivity.
Qed.

Lemma addPending_then_removePending_witness :
  let c := (storeTransfers empty_cache [T_xcall]).1 in
  getPending (addPending c "1337" "0xt9") "1337" = getPending c "1337" ++ ["0xt9"]
  /\ (removePending (addPending c "1337" "0xt9") "1337" "0xt9").1 = true
  /\ getPending (removePending (addPending c "1337" "0xt9") "1337" "0xt9").2 "1337"
     = getPending c "1337".
Proof.
  intros c. apply (addPending_then_removePending c "1337" "0xt9" "1337").
  vm_compute. intros H. apply elem_of_cons in H as [H|H]; [discriminate | inversion H].
Defined.

(** X11.  Adding to a pending list an id it holds already, and removing
    from it an id it does not hold, change nothing; the removal then
    answers [false].  So a second [addPending], and a second
    [removePending] on a list without duplicates, are without effect. *)
Theorem pending_updates_are_idempotent c d id :
  NoDup (getPending c d) ->
  addPending (addPending c d id) d id = addPending c d id
  /\ removePending (removePending c d id).2 d id = (false, (removePending c d id).2).
Proof.
  intros Hnd. split.
  - unfold addPending at 1.
    assert (H : includes (getPending (addPending c d id) d) id = true).
    { apply includes_elem, getPending_addPending.
      destruct (decide (id ∈ getPending c d)); [now left | now right]. }
    now rewrite H.
  - unfold removePending at 1.
    assert (H : findIndex (getPending (removePending c d id).2 d) id = None).
    { apply findIndex_None. intros H.
      apply (getPending_removePending c d id d id Hnd) in H as [_ H]. now apply H. }
    now rewrite H.
Qed.

Lemma pending_updates_are_idempotent_witness :
  let c := (storeTransfers empty_cache [T_xcall]).1 in
  addPending (addPending c "1337" "0xt9") "1337" "0xt9" = addPending c "1337" "0xt9"
  /\ removePending (removePending c "1337" "0xt1").2 "1337" "0xt1"
     = (false, (removePending c "1337" "0xt1").2).
Proof.
  intros c.
  destruct (pending_updates_are_idempotent c "1337" "0xt9") as [H1 _].
  { vm_compute. apply NoDup_singleton. }
  destruct (pending_updates_are_idempotent c "1337" "0xt1") as [_ H2].
  { vm_compute. apply NoDup_singleton. }
  split; [exact H1 | exact H2].
Defined.

(** *** What an update overwrites *)

(** X25.  When an update that is not skipped holds a value other than
    [null] or [undefined] for a property, the record stored afterwards
    holds that value (as JSON keeps it), whatever the stored record held
    there: between two known values the incoming one wins. *)
Theorem incoming_value_wins c u field :
  reachable c ->
  XTransfer_typed u = true ->
  same_stringified u (getTransfer c (transferId u)) = false ->
  is_nullish (get_prop field u) = false ->
  exists R',
    getTransfer (storeTransfers c [u]).1 (transferId u) = Some R'
    /\ get_prop field R' = JSON_roundtrip (get_prop field u).
Proof.
  intros Hc Ht Hskip Hf.
  destruct (reachable_ok c Hc) as [_ Hrec].
  assert (Hex : forall e, getTransfer c (transferId u) = Some e -> NoDup (map fst e)).
  { intros e He. now apply (Hrec _ _ He). }
  unfold getTransfer at 1. rewrite storeTransfers_transfers. cbn [fold_left].
  rewrite data_store_transfer. cbn [data]. cbn zeta. rewrite Hskip.
  rewrite write_transfer_transfers, (collate_transferId _ u Ht Hex), lookup_insert_eq.
  eexists. split; [reflexivity|].
  rewrite get_prop_roundtrip_object by (apply collate_unique; now apply typed_unique).
  destruct (getTransfer c (transferId u)) as [e|] eqn:He; [|reflexivity].
  rewrite get_prop_collate by (eauto using typed_unique). now rewrite Hf.
Qed.

Lemma incoming_value_wins_witness :
  let c := (storeTransfers empty_cache [T_xcall]).1 in
  exists R',
    getTransfer (storeTransfers c [T_execute]).1 (transferId T_execute) = Some R'
    /\ get_prop "execute" R' = JSON_roundtrip (get_prop "execute" T_execute).
Proof.
  intros c. apply (incoming_value_wins c T_execute "execute").
  - apply reachable_once. vm_compute. reflexivity.
  - vm_compute. reflexivity.
  - vm_compute. reflexivity.
  - reflexivity.
Defined.

(** *** A batch and its records one after another *)

Lemma write_transfer_same_records c c' m :
  transfers c = transfers c' -> pending c = pending c' ->
  transfers (write_transfer c m) = transfers (write_transfer c' m)
  /\ pending (write_transfer c m) = pending (write_transfer c' m).
Proof.
  intros Ht Hp. unfold write_transfer, addPending, removePending, getPending.
  cbn [transfers pending nonces errors]. rewrite Ht, Hp.
  repeat match goal with
         | |- context [if ?b then _ else _] => destruct b
         | |- context [match ?o with Some _ => _ | None => _ end] => destruct o
         end; cbn [transfers pending snd]; now rewrite ?Ht, ?Hp.
Qed.

Lemma store_transfers_same_records ts : forall st st',
  transfers (data st) = transfers (data st') ->
  pending (data st) = pending (data st') ->
  transfers (data (fold_left store_transfer ts st))
  = transfers (data (fold_left store_transfer ts st'))
  /\ pending (data (fold_left store_transfer ts st))
     = pending (data (fold_left store_transfer ts st')).
Proof.
  induction ts as [|u ts IH]; cbn [fold_left]; intros st st' Ht Hp; [now split|].
  apply IH; rewrite !data_store_transfer; cbn zeta; unfold getTransfer; rewrite Ht;
    destruct (same_stringified _ _); try assumption;
    now apply write_transfer_same_records.
Qed.

(** X12.  The records of a batch are collated one after another: the
    records and the pending lists after [storeTransfers] of a batch are
    those after [storeTransfers] of its first part followed by
    [storeTransfers] of the rest. *)
Theorem batch_is_stored_record_by_record c ts1 ts2 id d :
  getTransfer (storeTransfers c (ts1 ++ ts2)).1 id
  = getTransfer (storeTransfers (storeTransfers c ts1).1 ts2).1 id
  /\ getPending (storeTransfers c (ts1 ++ ts2)).1 d
     = getPending (storeTransfers (storeTransfers c ts1).1 ts2).1 d.
Proof.
  unfold getTransfer. rewrite !storeTransfers_pending, !storeTransfers_transfers.
  rewrite fold_left_app.
  destruct (store_transfers_same_records ts2
              (fold_left store_transfer ts1 (mkBatch c ∅ ∅))
              (mkBatch (storeTransfers c ts1).1 ∅ ∅)) as [Ht Hp].
  - cbn [data]. now rewrite storeTransfers_transfers.
  - cbn [data]. unfold storeTransfers.
    now destruct (publish_nonce_keeps
                    (nonceDidIncreaseForDomain (fold_left store_transfer ts1 (mkBatch c ∅ ∅)))
                    (map_to_list (highestNonceByDomain
                                    (fold_left store_transfer ts1 (mkBatch c ∅ ∅))))
                    (data (fold_left store_transfer ts1 (mkBatch c ∅ ∅))) [])
      as (_ & -> & _).
  - unfold getPending. now rewrite Ht, Hp.
Qed.

End TransfersCacheCoverage.

(** ** The hub: further properties *)

Section RootManagerCoverage.
Import Solidity RootManager.
Local Open Scope N_scope.

Ltac run := unfold bind, get, modify, require, revert, ret in *; simpl in *.

Lemma onlyConnector_accepts s caller d :
  connector_of s d = caller -> onlyConnector caller d s = Success tt s.
Proof. intros H. unfold onlyConnector. run. rewrite H, N.eqb_refl. reflexivity. Qed.

Lemma setOutboundRoot_by_connector s caller d r :
  connector_of s d = caller ->
  setOutboundRoot caller d r s
  = Success tt (mkState (owner s) (connectors s) (<[d := r]> (outboundRoots s))
                        (domains s) (watchers s)
                        (events s ++ [OutboundRootUpdated d r]) (calls s)).
Proof.
  intros Hc. unfold setOutboundRoot. unfold bind at 1.
  rewrite (onlyConnector_accepts _ _ _ Hc). reflexivity.
Qed.

(** X13.  [setOutboundRoot] called by the connector bound to the domain
    goes through: the root of that domain reads the new value, the roots
    of the other domains, the bindings, the list of domains and the
    watchers are untouched, and [OutboundRootUpdated] is emitted. *)
Theorem setOutboundRoot_by_bound_connector s caller d r :
  connector_of s d = caller ->
  exists s',
    setOutboundRoot caller d r s = Success tt s'
    /\ outboundRoot_of s' d = r
    /\ (forall d', d' <> d -> outboundRoot_of s' d' = outboundRoot_of s d')
    /\ connectors s' = connectors s /\ domains s' = domains s
    /\ watchers s' = watchers s
    /\ events s' = events s ++ [OutboundRootUpdated d r].
Proof.
  intros Hc. unfold setOutboundRoot. unfold bind at 1.
  rewrite (onlyConnector_accepts _ _ _ Hc). unfold emit. run.
  eexists. split; [reflexivity|]. cbn. repeat split.
  - unfold outboundRoot_of. cbn. now rewrite lookup_insert_eq.
  - intros d' Hne. unfold outboundRoot_of. cbn. now rewrite lookup_insert_ne.
Qed.

Lemma setOutboundRoot_by_bound_connector_witness :
  let s := mkState 1 (<[7 := 11]> ∅) (<[7 := 3]> ∅) [7] ∅ [] [] in
  exists s',
    setOutboundRoot 11 7 5 s = Success tt s'
    /\ outboundRoot_of s' 7 = 5
    /\ (forall d', d' <> 7 -> outboundRoot_of s' d' = outboundRoot_of s d')
    /\ connectors s' = connectors s /\ domains s' = domains s
    /\ watchers s' = watchers s
    /\ events s' = events s ++ [OutboundRootUpdated 7 5].
Proof.
  intros s. apply (setOutboundRoot_by_bound_connector s 11 7 5). reflexivity.
Defined.

Lemma propagate_loop_call_fails returns agg rest : forall i s,
  i + N.of_nat (length rest) <= 255 ->
  connectors_return returns s agg rest = false ->
  failure_of (propagate_loop returns agg i rest s) = Some CallReverted.
Proof.
  induction rest as [|d rest IH]; intros i s Hlen Hret; [discriminate|].
  cbn [propagate_loop]. cbn [length] in Hlen.
  unfold connectors_return in Hret. cbn [forallb] in Hret.
  run. unfold call_propagateRoot.
  destruct (N.eqb_spec i 255) as [->|_]; [lia|].
  destruct (connector_of s d =? 0) eqn:Hz; simpl in *.
  - apply IH; [lia | exact Hret].
  - destruct (returns (connector_of s d) agg); simpl in *; [|reflexivity].
    apply IH; [lia | exact Hret].
Qed.

(** X14.  With 1 to 255 listed domains, [propagate] calls
    [propagateRoot], in the order of the list, on the connector of every
    entry whose connector is not the zero address (an entry listed twice
    is called twice), each time with the packed outbound root of
    [domains[0]].  When all these calls return it runs to its end and
    changes nothing else in the storage; when one of them does not, it
    reverts with it and the storage is left as it was.  (The connectors
    are taken not to call back into the root manager.) *)
Theorem propagate_calls_every_bound_connector returns s d0 ds :
  domains s = d0 :: ds ->
  (length (domains s) <= 255)%nat ->
  let aggregate := abi_encodePacked_bytes32 (outboundRoot_of s d0) in
  (connectors_return returns s aggregate (domains s) = true ->
   exists s',
     propagate returns s = Success tt s'
     /\ calls s' = calls s ++ propagate_calls s aggregate (domains s)
     /\ connectors s' = connectors s /\ outboundRoots s' = outboundRoots s
     /\ domains s' = domains s /\ watchers s' = watchers s /\ events s' = events s)
  /\ (connectors_return returns s aggregate (domains s) = false ->
      failure_of (propagate returns s) = Some CallReverted
      /\ transact (propagate returns) s = s).
Proof.
  intros Hd Hlen aggregate. split.
  - intros Hret. rewrite (propagate_sends_to_every_connector returns s d0 ds Hd Hlen Hret).
    eexists. split; [reflexivity|]. repeat split.
  - intros Hret.
    assert (E : failure_of (propagate returns s) = Some CallReverted).
    { unfold propagate. run. rewrite Hd in *.
      apply propagate_loop_call_fails; [lia | exact Hret]. }
    split; [exact E|]. unfold transact.
    destruct (propagate returns s); [discriminate | reflexivity].
Qed.

(** Domain 1 is listed twice, domain 2 has no connector; first every
    call returns, then the connector 6 of domain 3 does not. *)
Lemma propagate_calls_every_bound_connector_witness :
  let s := mkState 1 (<[1 := 5]> (<[3 := 6]> ∅)) (<[1 := 255]> ∅) [1; 2; 3; 1] ∅ [] [] in
  let aggregate := abi_encodePacked_bytes32 (outboundRoot_of s 1) in
  let all_but_6 := fun (c : address) (_ : bytes) => negb (c =? 6) in
  (exists s',
     propagate always_returns s = Success tt s'
     /\ calls s' = calls s ++ propagate_calls s aggregate (domains s)
     /\ connectors s' = connectors s /\ outboundRoots s' = outboundRoots s
     /\ domains s' = domains s /\ watchers s' = watchers s /\ events s' = events s)
  /\ failure_of (propagate all_but_6 s) = Some CallReverted
  /\ transact (propagate all_but_6) s = s.
Proof.
  intros s aggregate all_but_6.
  destruct (propagate_calls_every_bound_connector always_returns s 1 [2; 3; 1])
    as [Hok _]; [reflexivity | cbn; lia |].
  destruct (propagate_calls_every_bound_connector all_but_6 s 1 [2; 3; 1])
    as [_ Hfail]; [reflexivity | cbn; lia |].
  split; [apply Hok; reflexivity | apply Hfail; reflexivity].
Defined.

Lemma propagate_loop_overflows returns agg rest : forall i s,
  i <= 255 ->
  255 < i + N.of_nat (length rest) ->
  failure_of (propagate_loop returns agg i rest s)
  = Some (if connectors_return returns s agg (firstn (N.to_nat (256 - i)) rest)
          then Panic 17 else CallReverted).
Proof.
  induction rest as [|d rest IH]; intros i s Hi Hlen.
  - cbn in Hlen. lia.
  - cbn [propagate_loop]. cbn [length] in Hlen.
    replace (N.to_nat (256 - i)) with (S (N.to_nat (256 - (i + 1)))) by lia.
    cbn [firstn]. unfold connectors_return. cbn [forallb].
    fold (connectors_return returns s agg (firstn (N.to_nat (256 - (i + 1))) rest)).
    run. unfold call_propagateRoot.
    destruct (connector_of s d =? 0) eqn:Hz; simpl.
    + destruct (N.eqb_spec i 255) as [->|Hne]; [reflexivity|].
      apply IH; lia.
    + destruct (returns (connector_of s d) agg); simpl; [|reflexivity].
      destruct (N.eqb_spec i 255) as [->|Hne]; [reflexivity|].
      match goal with
      | |- failure_of (propagate_loop _ _ _ _ ?s1) = _ =>
          exact (IH (i + 1) s1 ltac:(lia) ltac:(lia))
      end.
Qed.

(** X15.  [propagate] cannot run outside 1 to 255 listed domains: with
    no domain listed it reverts on [domains[0]] (Panic 0x32); with more
    than 255 it reverts when its [uint8] counter overflows after the
    256th entry (Panic 0x11), unless one of the calls for the first 256
    entries has made it revert before; in all cases the storage is left
    as it was. *)
Theorem propagate_reverts_outside_1_to_255 returns s0 s256 :
  domains s0 = [] ->
  (255 < length (domains s256))%nat ->
  failure_of (propagate returns s0) = Some (Panic 50)
  /\ transact (propagate returns) s0 = s0
  /\ failure_of (propagate returns s256)
     = Some (if connectors_return returns s256
                  (abi_encodePacked_bytes32 (outboundRoot_of s256 (hd 0 (domains s256))))
                  (firstn 256 (domains s256))
             then Panic 17 else CallReverted)
  /\ transact (propagate returns) s256 = s256.
Proof.
  intros H0 H256.
  assert (E0 : propagate returns s0 = Reverted (Panic 50) s0).
  { unfold propagate. run. now rewrite H0. }
  assert (E256 : failure_of (propagate returns s256)
                 = Some (if connectors_return returns s256
                              (abi_encodePacked_bytes32
                                 (outboundRoot_of s256 (hd 0 (domains s256))))
                              (firstn 256 (domains s256))
                         then Panic 17 else CallReverted)).
  { unfold propagate. run. destruct (domains s256) as [|d ds] eqn:Hd; [cbn in H256; lia|].
    cbn [hd].
    rewrite propagate_loop_overflows by (first [lia | cbn [length] in *; lia]).
    reflexivity. }
  unfold transact. rewrite E0. split; [reflexivity|]. split; [reflexivity|].
  split; [exact E256|].
  destruct (propagate returns s256); [|reflexivity].
  cbn in E256. destruct (connectors_return _ _ _ _); discriminate.
Qed.

Lemma propagate_reverts_outside_1_to_255_witness :
  let s0 := constructor 1 in
  let s256 := mkState 1 ∅ ∅ (map N.of_nat (seq 0 256)) ∅ [] [] in
  failure_of (propagate always_returns s0) = Some (Panic 50)
  /\ transact (propagate always_returns) s0 = s0
  /\ failure_of (propagate always_returns s256) = Some (Panic 17)
  /\ transact (propagate always_returns) s256 = s256.
Proof.
  intros s0 s256.
  destruct (propagate_reverts_outside_1_to_255 always_returns s0 s256)
    as (H1 & H2 & H3 & H4).
  - reflexivity.
  - cbn [domains s256]. rewrite length_map, length_seq. lia.
  - split; [exact H1|]. split; [exact H2|]. split; [|exact H4].
    rewrite H3. vm_compute. reflexivity.
Defined.

(** *** Removing a listed domain *)

(** The search of [removeConnector] stops at the first entry equal to
    the domain, when it lies within the first 256, and writes [lst] there. *)
Lemma removeConnector_loop_found d lst pre post : forall i s,
  ~ In d pre ->
  i + N.of_nat (length pre) <= 255 ->
  removeConnector_loop d lst i (pre ++ d :: post) s
  = Success tt (set_domains
                  (fun ds => <[N.to_nat (i + N.of_nat (length pre)) := lst]> ds) s).
Proof.
  induction pre as [|x pre IH]; intros i s Hnot Hlen; cbn [app removeConnector_loop].
  - rewrite N.eqb_refl. cbn [length]. unfold modify.
    replace (N.to_nat (i + N.of_nat 0)) with (N.to_nat i) by lia. reflexivity.
  - cbn [length] in Hlen.
    destruct (N.eqb_spec x d) as [->|_]; [exfalso; apply Hnot; now left|].
    destruct (N.eqb_spec i 255) as [->|_]; [lia|].
    rewrite IH by (first [intros H; apply Hnot; now right | lia]).
    cbn [length].
    replace (N.to_nat (i + 1 + N.of_nat (length pre)))
      with (N.to_nat (i + N.of_nat (S (length pre)))) by lia.
    reflexivity.
Qed.

Lemma insert_middle (pre post : list uint32) (d x : uint32) :
  <[length pre := x]> (pre ++ d :: post) = pre ++ x :: post.
Proof. rewrite insert_app_r_alt by lia. now rewrite Nat.sub_diag. Qed.

(** The last entry of a list in which [d] is listed, and the list left
    by the swap and the [pop]. *)
Lemma swap_and_pop (pre post : list uint32) (d : uint32) :
  exists lst : uint32,
    (pre ++ d :: post) !! (length (pre ++ d :: post) - 1)%nat = Some lst
    /\ length (removelast (pre ++ lst :: post)) = (length pre + length post)%nat
    /\ firstn (length pre) (removelast (pre ++ lst :: post)) = pre
    /\ (forall x, In x (removelast (pre ++ lst :: post)) <-> In x pre \/ In x post).
Proof.
  destruct post as [|p post0 _] using rev_ind.
  - exists d. rewrite removelast_last. repeat split.
    + rewrite length_app. cbn [length].
      replace (length pre + 1 - 1)%nat with (length pre + 0)%nat by lia.
      now rewrite lookup_app_r, Nat.add_comm, Nat.add_sub by lia.
    + cbn. lia.
    + apply firstn_all.
    + intros H. now left.
    + intros [H|[]]. exact H.
  - exists p.
    assert (E : pre ++ p :: post0 ++ [p] = (pre ++ p :: post0) ++ [p])
      by now rewrite <- app_assoc.
    rewrite E, removelast_last. repeat split.
    + replace (pre ++ d :: post0 ++ [p]) with ((pre ++ d :: post0) ++ [p])
        by now rewrite <- app_assoc.
      rewrite (length_app (pre ++ d :: post0)). cbn [length].
      replace (length (pre ++ d :: post0) + 1 - 1)%nat
        with (length (pre ++ d :: post0) + 0)%nat by lia.
      now rewrite lookup_app_r, Nat.add_comm, Nat.add_sub by lia.
    + rewrite !length_app. cbn [length]. lia.
    + rewrite firstn_app, Nat.sub_diag, firstn_all. cbn. apply app_nil_r.
    + rewrite in_app_iff. cbn [In]. rewrite in_app_iff. cbn [In]. tauto.
    + rewrite in_app_iff. cbn [In]. rewrite in_app_iff. cbn [In]. tauto.
Qed.

(** X16.  A watcher removes a listed domain [d] whose first entry is
    among the first 256 of the list: the call goes through, the binding
    of [d] reads zero and [ConnectorRemoved] is emitted with the binding
    it had; the list loses one entry, that first entry of [d] (the last
    entry takes its place): the entries before it stay where they were,
    and the entries after it are all still listed.  The outbound root of
    [d] is not cleared. *)
Theorem removeConnector_listed_domain s caller d pre post :
  is_watcher s caller = true ->
  domains s = pre ++ d :: post ->
  ~ In d pre ->
  (length pre <= 255)%nat ->
  exists s',
    removeConnector caller d s = Success tt s'
    /\ connector_of s' d = 0
    /\ events s' = events s ++ [ConnectorRemoved d (connector_of s d)]
    /\ length (domains s') = (length (domains s) - 1)%nat
    /\ firstn (length pre) (domains s') = pre
    /\ (forall x, In x (domains s') <-> In x pre \/ In x post)
    /\ outboundRoots s' = outboundRoots s
    /\ watchers s' = watchers s.
Proof.
  intros Hw Hd Hnot Hlen.
  destruct (swap_and_pop pre post d) as (lst & Hlst & Hlen' & Hpre & Hmem).
  assert (E : removeConnector caller d s
              = Success tt
                  (mkState (owner s) (delete d (connectors s)) (outboundRoots s)
                           (removelast (pre ++ lst :: post)) (watchers s)
                           (events s ++ [ConnectorRemoved d (connector_of s d)])
                           (calls s))).
  { unfold removeConnector. unfold bind at 1. rewrite (onlyWatcher_accepts _ _ Hw).
    unfold bind at 1. unfold get at 1. unfold bind at 1. unfold modify at 1.
    unfold bind at 1. unfold get at 1. cbv beta iota.
    change (domains (set_connectors (delete d) s)) with (domains s).
    rewrite Hd.
    destruct (N.eqb_spec (N.of_nat (length (pre ++ d :: post))) 0) as [H0|_].
    { rewrite length_app in H0. cbn [length] in H0. lia. }
    replace (N.to_nat (N.of_nat (length (pre ++ d :: post)) - 1))
      with (length (pre ++ d :: post) - 1)%nat by lia.
    rewrite Hlst.
    unfold bind at 1. rewrite removeConnector_loop_found by (first [assumption | lia]).
    replace (N.to_nat (0 + N.of_nat (length pre))) with (length pre) by lia.
    unfold bind at 1. rewrite pop_domain_nonempty.
    2:{ cbn [domains set_domains set_connectors]. rewrite Hd, insert_middle.
        now destruct pre. }
    unfold emit, modify.
    cbn [domains set_domains set_connectors events connectors outboundRoots watchers
         owner calls].
    now rewrite Hd, insert_middle. }
  eexists. split; [exact E|].
  cbn [domains events connectors outboundRoots watchers].
  repeat split; try assumption.
  - unfold connector_of. cbn [connectors]. now rewrite lookup_delete_eq.
  - rewrite Hlen', Hd, length_app. cbn [length]. lia.
  - apply Hmem.
  - apply Hmem.
Qed.

Lemma removeConnector_listed_domain_witness :
  let s := mkState 1 (<[2 := 6]> ∅) (<[2 := 77]> ∅) [1; 2; 3; 4] (<[9 := true]> ∅) [] [] in
  exists s',
    removeConnector 9 2 s = Success tt s'
    /\ connector_of s' 2 = 0
    /\ events s' = events s ++ [ConnectorRemoved 2 (connector_of s 2)]
    /\ length (domains s') = (length (domains s) - 1)%nat
    /\ firstn (length [1]) (domains s') = [1]
    /\ (forall x, In x (domains s') <-> In x [1] \/ In x [3; 4])
    /\ outboundRoots s' = outboundRoots s
    /\ watchers s' = watchers s.
Proof.
  intros s. apply (removeConnector_listed_domain s 9 2 [1] [3; 4]).
  - reflexivity.
  - reflexivity.
  - cbn. intros [H|[]]. discriminate.
  - cbn. lia.
Defined.

(** X17.  With no domain listed, a watcher's [removeConnector] reverts on
    [domains.length - 1] (Panic 0x11): the binding it had cleared just
    before is restored with the rest of the storage. *)
Theorem removeConnector_empty_list_reverts s caller d :
  is_watcher s caller = true ->
  domains s = [] ->
  failure_of (removeConnector caller d s) = Some (Panic 17)
  /\ transact (removeConnector caller d) s = s.
Proof.
  intros Hw Hd.
  assert (E : removeConnector caller d s
              = Reverted (Panic 17) (set_connectors (delete d) s)).
  { unfold removeConnector. unfold bind at 1. rewrite (onlyWatcher_accepts _ _ Hw).
    run. now rewrite Hd. }
  unfold transact. rewrite E. split; reflexivity.
Qed.

Lemma removeConnector_empty_list_reverts_witness :
  let s := mkState 1 (<[7 := 11]> ∅) ∅ [] (<[9 := true]> ∅) [] [] in
  failure_of (removeConnector 9 7 s) = Some (Panic 17)
  /\ transact (removeConnector 9 7) s = s.
Proof.
  intros s. apply (removeConnector_empty_list_reverts s 9 7); reflexivity.
Defined.

(** *** Watchers and disabled connectors *)

Lemma addWatcher_by_owner s o w :
  owner s = o ->
  addWatcher o w s
  = Success tt (mkState (owner s) (connectors s) (outboundRoots s) (domains s)
                        (<[w := true]> (watchers s)) (events s ++ [WatcherAdded w])
                        (calls s)).
Proof.
  intros Ho. unfold addWatcher. unfold bind at 1. rewrite (onlyOwner_accepts _ _ Ho).
  reflexivity.
Qed.

Lemma removeWatcher_by_owner s o w :
  owner s = o ->
  removeWatcher o w s
  = Success tt (mkState (owner s) (connectors s) (outboundRoots s) (domains s)
                        (<[w := false]> (watchers s)) (events s ++ [WatcherRemoved w])
                        (calls s)).
Proof.
  intros Ho. unfold removeWatcher. unfold bind at 1. rewrite (onlyOwner_accepts _ _ Ho).
  reflexivity.
Qed.

(** X18.  The owner enrols a watcher with [addWatcher] and unenrols it
    with [removeWatcher]: after the first the address is a watcher,
    after the second it is not and its [removeConnector] is rejected with
    "!watcher"; the standing of every other address, the bindings and
    the list of domains are untouched by both. *)
Theorem watcher_is_enrolled_then_unenrolled s o w d :
  owner s = o ->
  let s1 := transact (addWatcher o w) s in
  let s2 := transact (removeWatcher o w) s1 in
  is_watcher s1 w = true
  /\ is_watcher s2 w = false
  /\ (forall w', w' <> w ->
        is_watcher s1 w' = is_watcher s w' /\ is_watcher s2 w' = is_watcher s w')
  /\ connectors s2 = connectors s /\ domains s2 = domains s
  /\ removeConnector w d s2 = Reverted (RequireFailed "!watcher") s2.
Proof.
  intros Ho s1 s2.
  assert (E1 : s1 = mkState (owner s) (connectors s) (outboundRoots s) (domains s)
                       (<[w := true]> (watchers s)) (events s ++ [WatcherAdded w])
                       (calls s)).
  { unfold s1, transact. now rewrite (addWatcher_by_owner s o w Ho). }
  assert (E2 : s2 = mkState (owner s) (connectors s) (outboundRoots s) (domains s)
                       (<[w := false]> (<[w := true]> (watchers s)))
                       (events s ++ [WatcherAdded w] ++ [WatcherRemoved w]) (calls s)).
  { unfold s2, transact. rewrite (removeWatcher_by_owner s1 o w) by now rewrite E1.
    rewrite E1. cbn. now rewrite <- app_assoc. }
  assert (H2 : is_watcher s2 w = false).
  { rewrite E2. unfold is_watcher. cbn. now rewrite lookup_insert_eq. }
  split; [rewrite E1; unfold is_watcher; cbn; now rewrite lookup_insert_eq|].
  split; [exact H2|]. split.
  - intros w' Hne. rewrite E1, E2. unfold is_watcher. cbn.
    now rewrite !lookup_insert_ne by congruence.
  - split; [now rewrite E2|]. split; [now rewrite E2|].
    unfold removeConnector, bind. now rewrite (onlyWatcher_rejects _ _ H2).
Qed.

Lemma watcher_is_enrolled_then_unenrolled_witness :
  let s := constructor 1 in
  let s1 := transact (addWatcher 1 9) s in
  let s2 := transact (removeWatcher 1 9) s1 in
  is_watcher s1 9 = true
  /\ is_watcher s2 9 = false
  /\ (forall w', w' <> 9 ->
        is_watcher s1 w' = is_watcher s w' /\ is_watcher s2 w' = is_watcher s w')
  /\ connectors s2 = connectors s /\ domains s2 = domains s
  /\ removeConnector 9 7 s2 = Reverted (RequireFailed "!watcher") s2.
Proof.
  intros s. apply (watcher_is_enrolled_then_unenrolled s 1 9 7). reflexivity.
Defined.

Lemma propagate_calls_rebound s s1 d data l :
  (forall x, connector_of s1 x = if x =? d then 0 else connector_of s x) ->
  propagate_calls s1 data l
  = propagate_calls s data (List.filter (fun x => negb (x =? d)) l).
Proof.
  intros Hc. unfold propagate_calls.
  induction l as [|x l IH]; [reflexivity|].
  cbn [List.filter]. rewrite (Hc x).
  destruct (N.eqb_spec x d) as [->|Hne]; cbn [negb N.eqb List.filter map].
  - exact IH.
  - destruct (negb (connector_of s x =? 0)) eqn:Hz; cbn [List.filter map]; rewrite ?Hz;
      cbn [map]; rewrite ?IH, ?(Hc x); try reflexivity.
    destruct (N.eqb_spec x d); [contradiction | reflexivity].
Qed.

Lemma connectors_return_rebound returns s s1 d data l :
  (forall x, connector_of s1 x = if x =? d then 0 else connector_of s x) ->
  connectors_return returns s1 data l
  = connectors_return returns s data (List.filter (fun x => negb (x =? d)) l).
Proof.
  intros Hc. unfold connectors_return.
  induction l as [|x l IH]; [reflexivity|].
  cbn [List.filter forallb]. rewrite (Hc x), IH.
  destruct (N.eqb_spec x d) as [->|Hne]; cbn [negb forallb]; reflexivity.
Qed.

(** X19.  As the note on [addConnector] says, the owner can "add
    address(0) to effectively remove a connector".  With fewer than 255
    domains listed, after [addConnector(d, address(0))] the next
    [propagate] makes the calls for the entries other than [d], and none
    for [d]; it runs to its end when these calls return.  The entries of
    [d] stay in the list, with one more.  (The connectors are taken not
    to call back into the root manager.) *)
Theorem addConnector_zero_disables_domain returns s o d :
  owner s = o ->
  (length (domains s) < 255)%nat ->
  let s1 := transact (addConnector o d 0) s in
  let aggregate := abi_encodePacked_bytes32 (outboundRoot_of s (hd d (domains s))) in
  let others := List.filter (fun x => negb (x =? d)) (domains s) in
  connectors_return returns s aggregate others = true ->
  exists s2,
    propagate returns s1 = Success tt s2
    /\ calls s2 = calls s ++ propagate_calls s aggregate others
    /\ domains s2 = domains s ++ [d].
Proof.
  intros Ho Hlen s1 aggregate others Hret.
  assert (E : s1 = mkState (owner s) (<[d := 0]> (connectors s)) (outboundRoots s)
                      (domains s ++ [d]) (watchers s)
                      (events s ++ [ConnectorAdded d 0]) (calls s)).
  { unfold s1, transact, addConnector. unfold bind at 1.
    rewrite (onlyOwner_accepts _ _ Ho). reflexivity. }
  assert (Hc : forall x, connector_of s1 x = if x =? d then 0 else connector_of s x).
  { intros x. rewrite E. unfold connector_of. cbn [connectors].
    destruct (N.eqb_spec x d) as [->|Hne];
      [now rewrite lookup_insert_eq | now rewrite lookup_insert_ne by congruence]. }
  assert (Hf : List.filter (fun x => negb (x =? d)) (domains s1) = others).
  { rewrite E. cbn [domains]. rewrite List.filter_app. cbn [List.filter].
    rewrite N.eqb_refl. cbn. now rewrite app_nil_r. }
  assert (Hd : exists ds, domains s1 = hd d (domains s) :: ds).
  { rewrite E. cbn [domains]. destruct (domains s) as [|x l]; cbn; eauto. }
  destruct Hd as [ds Hd].
  assert (Hagg : abi_encodePacked_bytes32 (outboundRoot_of s1 (hd d (domains s)))
                 = aggregate).
  { rewrite E. reflexivity. }
  eexists. split.
  - apply (propagate_sends_to_every_connector returns s1 (hd d (domains s)) ds Hd).
    + rewrite E. cbn [domains]. rewrite length_app. cbn [length]. lia.
    + rewrite Hagg, (connectors_return_rebound returns s s1 d), Hf; assumption.
  - rewrite Hagg. cbn [add_calls calls domains].
    rewrite (propagate_calls_rebound s s1 d) by exact Hc. rewrite Hf.
    rewrite E. split; reflexivity.
Qed.

Lemma addConnector_zero_disables_domain_witness :
  let s := mkState 1 (<[1 := 5]> (<[2 := 6]> ∅)) ∅ [1; 2] ∅ [] [] in
  let s1 := transact (addConnector 1 2 0) s in
  let aggregate := abi_encodePacked_bytes32 (outboundRoot_of s (hd 2 (domains s))) in
  let others := List.filter (fun x => negb (x =? 2)) (domains s) in
  exists s2,
    propagate always_returns s1 = Success tt s2
    /\ calls s2 = calls s ++ propagate_calls s aggregate others
    /\ domains s2 = domains s ++ [2].
Proof.
  intros s. apply (addConnector_zero_disables_domain always_returns s 1 2).
  - reflexivity.
  - cbn. lia.
  - reflexivity.
Defined.

End RootManagerCoverage.

(** ** The spokes: further properties *)

Section GnosisConnectorCoverage.
Import Solidity GnosisConnector.
Local Open Scope N_scope.

Ltac run := unfold bind, get, modify, require, revert, ret in *; simpl in *.

(** *** Packing a root and reading it back *)

Lemma to_N_byte_of_N x : Byte.to_N (byte_of_N x) = x mod 256.
Proof.
  unfold byte_of_N. destruct (Byte.of_N (x mod 256)) as [b|] eqn:E.
  - now apply Byte.to_of_N.
  - apply Byte.of_N_None_iff in E.
    pose proof (N.mod_upper_bound x 256). lia.
Qed.

Lemma big_endian_succ k r :
  big_endian (S k) r = byte_of_N (N.shiftr r (8 * N.of_nat k)) :: big_endian k r.
Proof.
  unfold big_endian. cbn [seq map]. f_equal.
  - do 3 f_equal. lia.
  - rewrite <- seq_shift, map_map. apply map_ext. intros i. do 3 f_equal. lia.
Qed.

Lemma fold_big_endian r k : forall acc,
  fold_left (fun acc b => acc * 256 + Byte.to_N b) (big_endian k r) acc
  = acc * 256 ^ N.of_nat k + r mod 256 ^ N.of_nat k.
Proof.
  induction k as [|k IH]; intros acc.
  - cbn. rewrite N.mod_1_r. lia.
  - rewrite big_endian_succ. cbn [fold_left]. rewrite IH, to_N_byte_of_N.
    rewrite N.shiftr_div_pow2.
    replace (2 ^ (8 * N.of_nat k)) with (256 ^ N.of_nat k)
      by (rewrite N.pow_mul_r; reflexivity).
    rewrite Nat2N.inj_succ, N.pow_succ_r', (N.mul_comm 256 (256 ^ N.of_nat k)).
    rewrite N.Div0.mod_mul_r. ring.
Qed.

Lemma abi_encodePacked_big_endian r : abi_encodePacked_bytes32 r = big_endian 32 r.
Proof.
  unfold abi_encodePacked_bytes32, big_endian. apply map_ext_in.
  intros i Hi. apply in_seq in Hi. do 3 f_equal. lia.
Qed.

Lemma fold_bytes_bound (l : bytes) : forall acc,
  fold_left (fun acc b => acc * 256 + Byte.to_N b) l acc
  < (acc + 1) * 256 ^ N.of_nat (length l).
Proof.
  induction l as [|b l IH]; intros acc.
  - cbn. lia.
  - cbn [fold_left length]. specialize (IH (acc * 256 + Byte.to_N b)).
    rewrite Nat2N.inj_succ, N.pow_succ_r'.
    pose proof (Byte.to_N_bounded b). nia.
Qed.

(** *** What the handlers accept *)

Lemma verified_dec env s source :
  verified env s source
  <-> (msg_sender env =? AMB s) && (messageSender env =? mirrorConnector s)
      && (destinationChainId env =? block_chainid env)
      && (sourceChainId env =? source) = true.
Proof.
  unfold verified. rewrite !andb_true_iff, !N.eqb_eq. tauto.
Qed.

Lemma L2_processMessage_verified env s sender data :
  verified env s 1 ->
  L2._processMessage env sender data s
  = Success tt (mkState (AMB s) (ROOT_MANAGER s) (mirrorConnector s) (mirrorDomain s)
                        (bytes32_of_bytes data) (forwarded s)).
Proof.
  intros (H1 & H2 & H3 & H4).
  unfold L2._processMessage, _verifySender, update. run.
  now rewrite H1, H2, H3, H4, !N.eqb_refl.
Qed.

Lemma L1_processMessage_verified accepts env s sender data :
  verified env s 100 -> length data = 32%nat ->
  L1._processMessage accepts env sender data s
  = if accepts (ROOT_MANAGER s) (mirrorDomain s) (bytes32_of_bytes data)
    then Success tt (mkState (AMB s) (ROOT_MANAGER s) (mirrorConnector s) (mirrorDomain s)
                             (aggregateRoot s)
                             (forwarded s
                              ++ [mkSetOutboundRoot (ROOT_MANAGER s) (mirrorDomain s)
                                                    (bytes32_of_bytes data)]))
    else Reverted CallReverted s.
Proof.
  intros (H1 & H2 & H3 & H4) Hl.
  unfold L1._processMessage, _verifySender, call_setOutboundRoot. run.
  rewrite H1, H2, H3, H4, Hl, !N.eqb_refl. cbn.
  destruct (accepts _ _ _); reflexivity.
Qed.

Lemma bytes32_round_trip (r : bytes32) :
  r < 2 ^ 256 -> bytes32_of_bytes (abi_encodePacked_bytes32 r) = r.
Proof.
  intros Hr.
  assert (H32 : length (abi_encodePacked_bytes32 r) = 32%nat).
  { unfold abi_encodePacked_bytes32. now rewrite length_map, length_seq. }
  unfold bytes32_of_bytes. rewrite firstn_app, H32. cbn [Nat.sub firstn].
  rewrite app_nil_r, <- H32, firstn_all, abi_encodePacked_big_endian.
  rewrite fold_big_endian. cbn [N.of_nat Pos.of_succ_nat Pos.succ].
  change (256 ^ 32) with (2 ^ 256). rewrite N.mod_small by exact Hr. lia.
Qed.

Lemma bytes32_of_bytes_bound data : bytes32_of_bytes data < 2 ^ 256.
Proof.
  unfold bytes32_of_bytes.
  pose proof (fold_bytes_bound (firstn 32 (data ++ repeat x00 32)) 0) as Hb.
  rewrite length_firstn, length_app, repeat_length in Hb.
  replace (Nat.min 32 (length data + 32)) with 32%nat in Hb by lia.
  exact Hb.
Qed.

Lemma bytes32_of_bytes_prefix (data extra : bytes) :
  (32 <= length data)%nat -> bytes32_of_bytes (data ++ extra) = bytes32_of_bytes data.
Proof.
  intros Hlen. unfold bytes32_of_bytes. f_equal.
  rewrite !firstn_app.
  replace (32 - length (data ++ extra))%nat with 0%nat by (rewrite length_app; lia).
  replace (32 - length data)%nat with 0%nat by lia.
  cbn [firstn]. now rewrite !app_nil_r.
Qed.

(** X20.  What the L2 connector stores from a verified message.  When
    the payload is the 32 bytes [abi.encodePacked] makes of a root, as
    [RootManager.propagate] sends them, the aggregate root stored is
    that root.  Whatever the payload, of any length, the value stored
    fits in 32 bytes; and bytes after the 32nd change nothing. *)
Theorem packed_root_is_read_back env s sender (r : bytes32) (data extra : bytes) :
  verified env s 1 ->
  r < 2 ^ 256 ->
  length (abi_encodePacked_bytes32 r) = 32%nat
  /\ aggregateRoot (transact (L2._processMessage env sender (abi_encodePacked_bytes32 r)) s)
     = r
  /\ aggregateRoot (transact (L2._processMessage env sender data) s) < 2 ^ 256
  /\ ((32 <= length data)%nat ->
      transact (L2._processMessage env sender (data ++ extra)) s
      = transact (L2._processMessage env sender data) s).
Proof.
  intros Hv Hr. unfold transact. rewrite !(L2_processMessage_verified env s sender _ Hv).
  cbn [aggregateRoot]. split; [|split; [|split]].
  - unfold abi_encodePacked_bytes32. now rewrite length_map, length_seq.
  - now apply bytes32_round_trip.
  - apply bytes32_of_bytes_bound.
  - intros Hlen. now rewrite bytes32_of_bytes_prefix.
Qed.

(** A root is read back; a payload of 3 bytes gives a value that fits;
    a 33rd byte is ignored. *)
Lemma packed_root_is_read_back_witness :
  let s := mkState 51 0 40 1 0 [] in
  let env := mkEnv 51 100 40 1 100 in
  length (abi_encodePacked_bytes32 123456789) = 32%nat
  /\ aggregateRoot
       (transact (L2._processMessage env 0 (abi_encodePacked_bytes32 123456789)) s)
     = 123456789
  /\ aggregateRoot (transact (L2._processMessage env 0 [x01; x02; x03]) s) < 2 ^ 256
  /\ transact (L2._processMessage env 0 (abi_encodePacked_bytes32 5 ++ [x01])) s
     = transact (L2._processMessage env 0 (abi_encodePacked_bytes32 5)) s.
Proof.
  intros s env.
  destruct (packed_root_is_read_back env s 0 123456789 [x01; x02; x03] [])
    as (H1 & H2 & H3 & _); [repeat split | vm_compute; reflexivity |].
  destruct (packed_root_is_read_back env s 0 5 (abi_encodePacked_bytes32 5) [x01])
    as (_ & _ & _ & H4); [repeat split | vm_compute; reflexivity |].
  split; [exact H1|]. split; [exact H2|]. split; [exact H3|].
  apply H4. vm_compute. lia.
Defined.

(** X21.  The handler of the L2 connector accepts a message exactly when
    the caller is the bridge and the bridge reports the mirror connector
    as sender, this chain as destination and chain 1 as source.  It then
    stores the first 32 bytes of the payload as the aggregate root,
    whatever the length of the payload, and forwards nothing. *)
Theorem L2_accepts_exactly_verified_messages env s sender data :
  (succeeds (L2._processMessage env sender data) s = true <-> verified env s 1)
  /\ (verified env s 1 ->
      L2._processMessage env sender data s
      = Success tt (mkState (AMB s) (ROOT_MANAGER s) (mirrorConnector s) (mirrorDomain s)
                            (bytes32_of_bytes data) (forwarded s))).
Proof.
  rewrite verified_dec.
  unfold succeeds, L2._processMessage, _verifySender, update. run.
  destruct (msg_sender env =? AMB s); cbn; [|split; [split|]; discriminate].
  destruct (messageSender env =? mirrorConnector s); cbn; [|split; [split|]; discriminate].
  destruct (destinationChainId env =? block_chainid env); cbn;
    [|split; [split|]; discriminate].
  destruct (sourceChainId env =? 1); cbn; [|split; [split|]; discriminate].
  split; [split|]; reflexivity.
Qed.

(** X22.  The handler of the L1 connector runs to its end exactly when
    the caller is the bridge, the bridge reports the mirror connector as
    sender, this chain as destination and chain 100 as source, the
    payload is 32 bytes long, and the root manager returns from
    [setOutboundRoot(mirrorDomain, payload)].  It then has made that one
    call and leaves its own aggregate root as it was.  When the message
    passes the checks and the root manager does not return, the handler
    reverts with it and the storage is left as it was. *)
Theorem L1_accepts_exactly_verified_roots accepts env s sender data :
  (succeeds (L1._processMessage accepts env sender data) s = true
   <-> verified env s 100 /\ length data = 32%nat
       /\ accepts (ROOT_MANAGER s) (mirrorDomain s) (bytes32_of_bytes data) = true)
  /\ (verified env s 100 -> length data = 32%nat ->
      L1._processMessage accepts env sender data s
      = if accepts (ROOT_MANAGER s) (mirrorDomain s) (bytes32_of_bytes data)
        then Success tt (mkState (AMB s) (ROOT_MANAGER s) (mirrorConnector s)
                                 (mirrorDomain s) (aggregateRoot s)
                                 (forwarded s
                                  ++ [mkSetOutboundRoot (ROOT_MANAGER s) (mirrorDomain s)
                                                        (bytes32_of_bytes data)]))
        else Reverted CallReverted s).
Proof.
  rewrite verified_dec.
  assert (Hl : length data = 32%nat <-> (N.of_nat (length data) =? 32) = true).
  { rewrite N.eqb_eq. lia. }
  rewrite Hl.
  unfold succeeds, L1._processMessage, _verifySender, call_setOutboundRoot. run.
  destruct (msg_sender env =? AMB s); cbn; [|split; [split|]; intuition discriminate].
  destruct (messageSender env =? mirrorConnector s); cbn;
    [|split; [split|]; intuition discriminate].
  destruct (destinationChainId env =? block_chainid env); cbn;
    [|split; [split|]; intuition discriminate].
  destruct (sourceChainId env =? 100); cbn; [|split; [split|]; intuition discriminate].
  destruct (N.of_nat (length data) =? 32); cbn; [|split; [split|]; intuition discriminate].
  destruct (accepts (ROOT_MANAGER s) (mirrorDomain s) (bytes32_of_bytes data)); cbn;
    [|split; [split|]; intuition discriminate].
  split; [split|]; auto.
Qed.

(** The connector at address 40 is the one bound to domain 1337 at the
    hub (address 60): its verified message of 32 bytes goes through.
    The same message handled by a connector at address 41, which the
    hub does not know, is reverted by the hub's ["!connector"]. *)
Lemma L1_accepts_exactly_verified_roots_witness :
  let w := Relay.mkHub 60 (RootManager.mkState 1 (<[1337 := 40]> ∅) ∅ [1337] ∅ [] []) in
  let s := mkState 50 60 77 1337 0 [] in
  let env := mkEnv 50 1 77 100 1 in
  let data := abi_encodePacked_bytes32 4242 in
  succeeds (L1._processMessage (Relay.hub_accepts w 40) env 0 data) s = true
  /\ L1._processMessage (Relay.hub_accepts w 41) env 0 data s = Reverted CallReverted s.
Proof.
  intros w s env data.
  assert (Hv : verified env s 100) by (repeat split).
  assert (Hl : length data = 32%nat) by reflexivity.
  split.
  - apply (L1_accepts_exactly_verified_roots (Relay.hub_accepts w 40) env s 0 data).
    split; [exact Hv|]. split; [exact Hl|]. vm_compute. reflexivity.
  - rewrite (proj2 (L1_accepts_exactly_verified_roots (Relay.hub_accepts w 41) env s 0 data)
               Hv Hl).
    vm_compute. reflexivity.
Defined.

End GnosisConnectorCoverage.

(** ** From a spoke to the hub and back *)

Section RootRelay.
Import Solidity.
Local Open Scope N_scope.

(** X23.  The bound connector of the first listed domain sets its
    outbound root; the next [propagate] (1 to 255 domains listed) calls
    every bound connector with the 32 bytes of that root, and runs to
    its end when these calls return.  (The connectors are taken not to
    call back into the root manager.) *)
Theorem root_of_first_domain_is_propagated returns
    (s : RootManager.State) caller d0 ds (r : bytes32) :
  RootManager.domains s = d0 :: ds ->
  (length (RootManager.domains s) <= 255)%nat ->
  RootManager.connector_of s d0 = caller ->
  RootManager.connectors_return returns s (abi_encodePacked_bytes32 r)
    (RootManager.domains s) = true ->
  exists s1 s2,
    RootManager.setOutboundRoot caller d0 r s = Success tt s1
    /\ RootManager.propagate returns s1 = Success tt s2
    /\ RootManager.calls s2
       = RootManager.calls s
         ++ RootManager.propagate_calls s (abi_encodePacked_bytes32 r)
              (RootManager.domains s).
Proof.
  intros Hd Hlen Hc Hret.
  eexists. eexists. split; [exact (setOutboundRoot_by_connector s caller d0 r Hc)|].
  match goal with
  | |- RootManager.propagate _ ?s1 = _ /\ _ =>
      assert (Hroot : RootManager.outboundRoot_of s1 d0 = r)
        by (unfold RootManager.outboundRoot_of; cbn [RootManager.outboundRoots];
            now rewrite lookup_insert_eq);
      pose proof (propagate_sends_to_every_connector returns s1 d0 ds Hd Hlen) as Hp
  end.
  rewrite Hroot in Hp. split; [exact (Hp Hret)|]. reflexivity.
Qed.

Lemma root_of_first_domain_is_propagated_witness :
  let s := RootManager.mkState 1 (<[1 := 5]> (<[2 := 6]> ∅)) ∅ [1; 2] ∅ [] [] in
  exists s1 s2,
    RootManager.setOutboundRoot 5 1 77 s = Success tt s1
    /\ RootManager.propagate RootManager.always_returns s1 = Success tt s2
    /\ RootManager.calls s2
       = RootManager.calls s
         ++ RootManager.propagate_calls s (abi_encodePacked_bytes32 77)
              (RootManager.domains s).
Proof.
  intros s.
  apply (root_of_first_domain_is_propagated RootManager.always_returns s 5 1 [2] 77).
  - reflexivity.
  - cbn. lia.
  - reflexivity.
  - reflexivity.
Defined.

(** X24.  From a spoke to the hub and back.  The L1 connector lives at
    address [this]; its root manager is the hub, where [this] is the
    connector bound to its mirror domain, the first domain listed.  It
    receives a verified message of 32 bytes: its call of
    [setOutboundRoot] is accepted by the hub, which records the value of
    these bytes as the outbound root of that domain; [propagate] (1 to
    255 domains listed, the calls to the connectors returning without
    calling back into the root manager) then
    sends the 32 bytes of that root to every bound connector; and an L2
    connector that receives them in a verified message stores that same
    value as its aggregate root. *)
Theorem outbound_root_reaches_the_spokes returns
    (w : Relay.Hub) (this : address) ds
    (c1 : GnosisConnector.State) env1 sender1 (data : bytes)
    (c2 : GnosisConnector.State) env2 sender2 :
  GnosisConnector.verified env1 c1 100 ->
  length data = 32%nat ->
  GnosisConnector.ROOT_MANAGER c1 = Relay.hub_address w ->
  RootManager.domains (Relay.hub w) = GnosisConnector.mirrorDomain c1 :: ds ->
  (length (RootManager.domains (Relay.hub w)) <= 255)%nat ->
  RootManager.connector_of (Relay.hub w) (GnosisConnector.mirrorDomain c1) = this ->
  let root := bytes32_of_bytes data in
  let payload := abi_encodePacked_bytes32 root in
  RootManager.connectors_return returns (Relay.hub w) payload
    (RootManager.domains (Relay.hub w)) = true ->
  GnosisConnector.verified env2 c2 1 ->
  exists c1' h1 h2 c2',
    GnosisConnector.L1._processMessage (Relay.hub_accepts w this) env1 sender1 data c1
    = Success tt c1'
    /\ GnosisConnector.forwarded c1'
       = GnosisConnector.forwarded c1
         ++ [GnosisConnector.mkSetOutboundRoot (Relay.hub_address w)
               (GnosisConnector.mirrorDomain c1) root]
    /\ RootManager.setOutboundRoot this (GnosisConnector.mirrorDomain c1) root (Relay.hub w)
       = Success tt h1
    /\ RootManager.outboundRoot_of h1 (GnosisConnector.mirrorDomain c1) = root
    /\ RootManager.propagate returns h1 = Success tt h2
    /\ RootManager.calls h2
       = RootManager.calls (Relay.hub w)
         ++ RootManager.propagate_calls (Relay.hub w) payload
              (RootManager.domains (Relay.hub w))
    /\ GnosisConnector.L2._processMessage env2 sender2 payload c2 = Success tt c2'
    /\ GnosisConnector.aggregateRoot c2' = root.
Proof.
  intros Hv1 Hlen Hrm Hd Hn Hc root payload Hret Hv2.
  pose proof (setOutboundRoot_by_connector (Relay.hub w) this _ root Hc) as E1.
  assert (Hacc : Relay.hub_accepts w this (GnosisConnector.ROOT_MANAGER c1)
                   (GnosisConnector.mirrorDomain c1) (bytes32_of_bytes data) = true).
  { unfold Relay.hub_accepts, succeeds. fold root. rewrite E1, Hrm, N.eqb_refl.
    reflexivity. }
  pose proof (L1_processMessage_verified (Relay.hub_accepts w this)
                env1 c1 sender1 data Hv1 Hlen) as EL1.
  rewrite Hacc in EL1.
  do 4 eexists.
  split; [exact EL1|]. split; [cbn [GnosisConnector.forwarded]; now rewrite Hrm|].
  split; [exact E1|].
  assert (Hroot : forall o c rs dl ws ev cl,
             RootManager.outboundRoot_of
               (RootManager.mkState o c
                  (<[GnosisConnector.mirrorDomain c1 := root]> rs) dl ws ev cl)
               (GnosisConnector.mirrorDomain c1) = root).
  { intros. unfold RootManager.outboundRoot_of. cbn [RootManager.outboundRoots].
    now rewrite lookup_insert_eq. }
  split; [apply Hroot|].
  split.
  - apply (propagate_sends_to_every_connector returns _
             (GnosisConnector.mirrorDomain c1) ds); [exact Hd | exact Hn |].
    rewrite Hroot. exact Hret.
  - split.
    + cbn [RootManager.add_calls RootManager.calls RootManager.domains].
      rewrite Hroot. reflexivity.
    + split; [exact (L2_processMessage_verified env2 c2 sender2 payload Hv2)|].
      cbn [GnosisConnector.aggregateRoot]. unfold payload.
      apply bytes32_round_trip, bytes32_of_bytes_bound.
Qed.

Lemma outbound_root_reaches_the_spokes_witness :
  let w := Relay.mkHub 60
             (RootManager.mkState 1 (<[1337 := 40]> (<[2 := 6]> ∅)) ∅ [1337; 2] ∅ [] []) in
  let c1 := GnosisConnector.mkState 50 60 77 1337 0 [] in
  let c2 := GnosisConnector.mkState 51 0 40 1 0 [] in
  let env1 := GnosisConnector.mkEnv 50 1 77 100 1 in
  let env2 := GnosisConnector.mkEnv 51 100 40 1 100 in
  let data := abi_encodePacked_bytes32 4242 in
  let root := bytes32_of_bytes data in
  let payload := abi_encodePacked_bytes32 root in
  exists c1' h1 h2 c2',
    GnosisConnector.L1._processMessage (Relay.hub_accepts w 40) env1 0 data c1
    = Success tt c1'
    /\ GnosisConnector.forwarded c1'
       = GnosisConnector.forwarded c1 ++ [GnosisConnector.mkSetOutboundRoot 60 1337 root]
    /\ RootManager.setOutboundRoot 40 1337 root (Relay.hub w) = Success tt h1
    /\ RootManager.outboundRoot_of h1 1337 = root
    /\ RootManager.propagate RootManager.always_returns h1 = Success tt h2
    /\ RootManager.calls h2
       = RootManager.calls (Relay.hub w)
         ++ RootManager.propagate_calls (Relay.hub w) payload
              (RootManager.domains (Relay.hub w))
    /\ GnosisConnector.L2._processMessage env2 0 payload c2 = Success tt c2'
    /\ GnosisConnector.aggregateRoot c2' = root.
Proof.
  intros w c1 c2 env1 env2 data.
  apply (outbound_root_reaches_the_spokes RootManager.always_returns
           w 40 [2] c1 env1 0 data c2 env2 0).
  - repeat split.
  - reflexivity.
  - reflexivity.
  - reflexivity.
  - cbn. lia.
  - reflexivity.
  - reflexivity.
  - repeat split.
Defined.

End RootRelay.
